(** * floss/utils.py: string extraction and false-positive filtering

    A shallow embedding of [extract_strings], [strip_bytes] and
    [strip_string] of [floss/utils.py], together with the part of Python's
    [re] module these functions rely on (a backtracking matcher and
    [re.sub]), and the properties of the filter pipeline. *)

From Stdlib Require Import ZArith NArith Lia Bool.
From Stdlib Require Import Strings.String Strings.Ascii Strings.Byte.
From Stdlib Require Import Numbers.HexadecimalZ.
From stdpp Require Import base gmap list sorting.

Local Open Scope Z_scope.

(** ** Data *)

(** Python [bytes]: a sequence of 8-bit values. *)
Abbreviation bytes := (list byte).

(** Python [str]: a sequence of Unicode code points. *)
Abbreviation str := (list N).

(** A [str] literal, from the 8-bit characters of a Rocq string. *)
Definition pystr (s : string) : str :=
  (fun a => N_of_ascii a) <$> list_ascii_of_string s.

(** A [bytes] literal. *)
Definition pybytes (s : string) : bytes := list_byte_of_string s.

(** Python's [len], an [int]. *)
Definition len {A} (l : list A) : Z := Z.of_nat (length l).

(** What the matcher needs of a character type: [re] works alike on [str]
    and on [bytes] patterns. *)
Class Symbol (A : Type) := {
  sym_eqb : A -> A -> bool;
  sym_eqb_eq : forall a b, sym_eqb a b = true <-> a = b;
  newline : A
}.

#[export] Instance byte_symbol : Symbol byte :=
  {| sym_eqb := Byte.eqb;
     sym_eqb_eq := fun a b => conj (Byte.byte_dec_bl a b) (@Byte.byte_dec_lb a b);
     newline := Byte.x0a |}.

#[export] Instance char_symbol : Symbol N :=
  {| sym_eqb := N.eqb; sym_eqb_eq := N.eqb_eq; newline := 10%N |}.

#[export] Instance byte_eq_dec : EqDecision byte := Byte.byte_eq_dec.

(** ** The [re] module *)

Module Re.

(** Patterns, as [sre_parse] reads them.  Groups carry their number. *)
Inductive regex (A : Type) : Type :=
| Empty                              (* the empty pattern *)
| Lit (a : A)                        (* a literal character *)
| Dot                                (* [.], without DOTALL *)
| OneOf (l : list A)                 (* a character set [[...]] *)
| Bol                                (* [^], without MULTILINE *)
| Eol                                (* [$], without MULTILINE *)
| Seq (r1 r2 : regex A)
| Alt (r1 r2 : regex A)              (* [r1|r2] *)
| Star (r : regex A)                 (* [r*], greedy *)
| Group (i : nat) (r : regex A)      (* the [i]-th capturing group *)
| Backref (i : nat).                 (* [\i] *)

Arguments Empty {A}.
Arguments Lit {A} a.
Arguments Dot {A}.
Arguments OneOf {A} l.
Arguments Bol {A}.
Arguments Eol {A}.
Arguments Seq {A} r1 r2.
Arguments Alt {A} r1 r2.
Arguments Star {A} r.
Arguments Group {A} i r.
Arguments Backref {A} i.

(** [r?], greedy: one occurrence is tried before none. *)
Definition Opt {A} (r : regex A) : regex A := Alt r Empty.

(** [r{n,}], greedy. *)
Fixpoint AtLeast {A} (n : nat) (r : regex A) : regex A :=
  match n with
  | O => Star r
  | S n' => Seq r (AtLeast n' r)
  end.

(** A literal string. *)
Fixpoint Str {A} (l : list A) : regex A :=
  match l with
  | [] => Empty
  | [a] => Lit a
  | a :: l' => Seq (Lit a) (Str l')
  end.

(** [r1|r2|...|rn]. *)
Fixpoint Alts {A} (r : regex A) (rs : list (regex A)) : regex A :=
  match rs with
  | [] => r
  | r' :: rs' => Alt r (Alts r' rs')
  end.

(** [r1 r2 ... rn]. *)
Fixpoint Seqs {A} (rs : list (regex A)) : regex A :=
  match rs with
  | [] => Empty
  | [r] => r
  | r :: rs' => Seq r (Seqs rs')
  end.

Section Matcher.
Context {A : Type} `{Symbol A}.

(** The text each group matched last. *)
Definition captures : Type := gmap nat (list A).

(** [is_prefix t s]: the text [s] starts with [t]. *)
Fixpoint is_prefix (t s : list A) : bool :=
  match t, s with
  | [], _ => true
  | a :: t', c :: s' => sym_eqb c a && is_prefix t' s'
  | _ :: _, [] => false
  end.

Section Engine.
Context {R : Type}.

(** What is left to match after a sub-pattern: it gets the position
    reached, the rest of the text and the groups. *)
Definition cont : Type := nat -> list A -> captures -> option R.

(** The backtracking matcher, in continuation-passing style: [m r pos s
    caps k] matches [r] at index [pos], where [s] is the text from
    [pos] on, and hands over to [k]; when [k] fails the next way of
    matching [r] is tried, in the order of [sre]: the left branch of an
    alternation first, the longest repetition first.  A repetition
    stops at an iteration that consumes nothing. *)
Fixpoint m (r : regex A) (pos : nat) (s : list A) (caps : captures)
    (k : cont) {struct r} : option R :=
  match r with
  | Empty => k pos s caps
  | Lit a =>
      match s with
      | c :: s' => if sym_eqb c a then k (S pos) s' caps else None
      | [] => None
      end
  | Dot =>
      match s with
      | c :: s' => if sym_eqb c newline then None else k (S pos) s' caps
      | [] => None
      end
  | OneOf l =>
      match s with
      | c :: s' => if existsb (sym_eqb c) l then k (S pos) s' caps else None
      | [] => None
      end
  | Bol => if (pos =? 0)%nat then k pos s caps else None
  | Eol =>
      match s with
      | [] => k pos s caps
      | [c] => if sym_eqb c newline then k pos s caps else None
      | _ => None
      end
  | Seq r1 r2 =>
      m r1 pos s caps (fun pos' s' caps' => m r2 pos' s' caps' k)
  | Alt r1 r2 =>
      match m r1 pos s caps k with
      | Some x => Some x
      | None => m r2 pos s caps k
      end
  | Star r' =>
      (fix loop (fuel : nat) (pos : nat) (s : list A) (caps : captures)
         {struct fuel} : option R :=
         match fuel with
         | O => k pos s caps
         | S fuel' =>
             match m r' pos s caps (fun pos' s' caps' =>
                     if (length s' <? length s)%nat
                     then loop fuel' pos' s' caps'
                     else None) with
             | Some x => Some x
             | None => k pos s caps
             end
         end) (length s) pos s caps
  | Group i r' =>
      m r' pos s caps (fun pos' s' caps' =>
        k pos' s' (<[i := take (pos' - pos) s]> caps'))
  | Backref i =>
      match caps !! i with
      | Some t =>
          if is_prefix t s
          then k (pos + length t)%nat (drop (length t) s) caps
          else None
      | None => None
      end
  end.
End Engine.

(** One attempt of [sre_match] at index [pos]: the length of the match.
    With [must_advance] an empty match is refused, and the matcher
    backtracks for a longer one. *)
Definition match_at (r : regex A) (must_advance : bool) (pos : nat)
    (s : list A) : option nat :=
  m r pos s ∅ (fun pos' _ _ =>
    if must_advance && (pos' =? pos)%nat then None
    else Some (pos' - pos)%nat).

(** [re.sub(r, repl, text)] for a [repl] without group references, as
    [pattern_subx] runs it: the text is searched from left to right,
    every match is replaced, and the search resumes where the match
    ended; after an empty match the next one must advance.  [skip] counts
    the characters of the current match that are still to be passed. *)
Fixpoint sub_loop (r : regex A) (repl : list A) (skip : nat) (pos : nat)
    (s : list A) {struct s} : list A :=
  match skip with
  | S skip' =>
      match s with
      | [] => []
      | _ :: s' => sub_loop r repl skip' (S pos) s'
      end
  | O =>
      let copy :=
        match s with
        | [] => []
        | c :: s' => c :: sub_loop r repl 0 (S pos) s'
        end in
      let replace n :=
        repl ++ match s with
                | [] => []
                | _ :: s' => sub_loop r repl n (S pos) s'
                end in
      match match_at r false pos s with
      | None => copy
      | Some (S n) => replace n
      | Some O =>
          repl ++ match match_at r true pos s with
                  | Some (S n) => replace n
                  | _ => copy
                  end
      end
  end.

Definition sub (r : regex A) (repl : list A) (s : list A) : list A :=
  sub_loop r repl 0 0 s.

(** [re.search(r, text)]: the index and the length of the leftmost match,
    if there is one. *)
Fixpoint search_from (r : regex A) (pos : nat) (s : list A)
    : option (nat * nat) :=
  match match_at r false pos s with
  | Some n => Some (pos, n)
  | None =>
      match s with
      | [] => None
      | _ :: s' => search_from r (S pos) s'
      end
  end.

Definition search (r : regex A) (s : list A) : option (nat * nat) :=
  search_from r 0 s.

(** The number of times [c] is repeated at the start of [s]. *)
Fixpoint run_length (c : A) (s : list A) : nat :=
  match s with
  | d :: s' => if sym_eqb d c then S (run_length c s') else O
  | [] => O
  end.

(** The least number of characters a match of [r] takes. *)
Fixpoint min_len (r : regex A) : nat :=
  match r with
  | Lit _ | Dot | OneOf _ => 1
  | Seq r1 r2 => min_len r1 + min_len r2
  | Alt r1 r2 => Nat.min (min_len r1) (min_len r2)
  | Group _ r' => min_len r'
  | Empty | Bol | Eol | Star _ | Backref _ => 0
  end.

End Matcher.

End Re.

(** ** The filters of [floss/utils.py] *)

(** The character with the code of an 8-bit Rocq character. *)
Definition ch (a : ascii) : N := N_of_ascii a.

(** The byte with the code of an 8-bit Rocq character. *)
Definition bch (a : ascii) : byte := byte_of_ascii a.

(** The quotation mark, code 34. *)
Definition dquote : str := [34%N].

(** [FP_STRINGS], an 8-tuple of [str]; the last entry lists the printable
    ASCII characters, from the space to the tilde. *)
Definition FP_STRINGS : list str := [
  pystr "R6016";
  pystr "Program: ";
  pystr "Runtime Error!";
  pystr "<program name unknown>";
  pystr "- floating point not loaded";
  pystr "Program: <program name unknown>";
  pystr "- not enough space for thread data";
  pystr " !" ++ dquote ++
  pystr "#$%&'()*+,-./0123456789:;<=>?@ABCDEFGHIJKLMNOPQRSTUVWXYZ[\]^_`abcdefghijklmnopqrstuvwxyz{|}~"
].

Import Re.

(** [FP_FILTER_REP_BYTES = re.compile(rb"(.)\1{3,}")]. *)
Definition FP_FILTER_REP_BYTES : regex byte :=
  Seq (Group 1 Dot) (AtLeast 3 (Backref 1)).

(** [FP_STACK_FILTER_1 = rb"...VA.*\x00\x00\x00\x00"]. *)
Definition FP_STACK_FILTER_1 : regex byte :=
  Seqs [Dot; Dot; Dot; Lit (bch "V"); Lit (bch "A"); Star Dot;
        Lit x00; Lit x00; Lit x00; Lit x00].

(** [FP_FILTER_PREFIXES], the pattern
    [^.?((p|P|0|W4|Q)?VA)(0|7Q|,)?|(0|P)?\\A|\[A|P\]A|@AA|fqd`|(fe){5,}|(p|P)_A]:
    an alternation of eight branches, of which the first alone starts with
    [^]. *)
Definition FP_FILTER_PREFIXES : regex N :=
  Alts
    (Seqs [Bol; Opt Dot;
           Group 1 (Seq (Opt (Group 2 (Alts (Lit (ch "p"))
                                          [Lit (ch "P"); Lit (ch "0");
                                           Str (pystr "W4"); Lit (ch "Q")])))
                        (Str (pystr "VA")));
           Opt (Group 3 (Alts (Lit (ch "0"))
                           [Str (pystr "7Q"); Lit (ch ",")]))])
    [Seqs [Opt (Group 4 (Alt (Lit (ch "0")) (Lit (ch "P"))));
           Lit (ch "\"); Lit (ch "A")];
     Str (pystr "[A");
     Str (pystr "P]A");
     Str (pystr "@AA");
     Str (pystr "fqd`");
     AtLeast 5 (Group 5 (Str (pystr "fe")));
     Seqs [Group 6 (Alt (Lit (ch "p")) (Lit (ch "P")));
           Lit (ch "_"); Lit (ch "A")]].

(** [FP_FILTER_SUFFIXES], the pattern
    [([0-9A-G>]VA|@AA|iiVV|j=p@|ids@|iDC@|i4C@|i%1@)$]. *)
Definition FP_FILTER_SUFFIXES : regex N :=
  Seq (Group 1 (Alts
         (Seq (OneOf (pystr "0123456789ABCDEFG>")) (Str (pystr "VA")))
         [Str (pystr "@AA"); Str (pystr "iiVV"); Str (pystr "j=p@");
          Str (pystr "ids@"); Str (pystr "iDC@"); Str (pystr "i4C@");
          Str (pystr "i%1@")]))
      Eol.

(** [strip_bytes(b, enabled=False)]. *)
Definition strip_bytes (b : bytes) (enabled : bool) : bytes :=
  if negb enabled then b
  else
    let b := sub FP_FILTER_REP_BYTES [x00; x00] b in
    let b := sub FP_STACK_FILTER_1 [x00; x00] b in
    b.

(** [strip_string(s)]: the two substitutions, the prefixes first. *)
Definition strip_string (s : str) : str :=
  fold_left (fun s reg => sub reg [] s)
            [FP_FILTER_PREFIXES; FP_FILTER_SUFFIXES] s.

(** ** [extract_strings] *)

(** Modelled from the spec: the encoding tag of a candidate, one of ascii
    and utf16le; [floss/results.py], which declares it, is not among the
    sources. *)
Inductive StringEncoding : Type := ASCII | UTF16LE.

(** Modelled from the spec: [StaticString] of [floss/results.py], the
    triple of a decoded text, the offset of its first byte in the buffer and
    its encoding; [extract_strings] reads the fields [string], [offset] and
    [encoding] and builds one from the three, in this order. *)
Record StaticString : Type := mkStaticString {
  string_ : str;
  offset : Z;
  encoding : StringEncoding
}.

#[export] Instance StringEncoding_eq_dec : EqDecision StringEncoding.
Proof. solve_decision. Defined.

#[export] Instance StaticString_eq_dec : EqDecision StaticString.
Proof. solve_decision. Defined.

(** What a call does besides yielding: the [logger.trace] lines, and the
    call of the run extractor of [floss.strings]. *)
Inductive event : Type :=
| Trace_strip_bytes (buffer buffer_stripped : bytes)
| Scan (buffer : bytes)
| Trace_strip (s decoded_string : str).

(** A generator run to exhaustion: the events and the values yielded, each
    in order. *)
Record gen : Type := mkGen {
  log : list event;
  yielded : list StaticString
}.

(** [return], and [continue] in a loop body: nothing more happens. *)
Definition stop : gen := {| log := []; yielded := [] |}.

Definition trace (e : event) : gen := {| log := [e]; yielded := [] |}.

Definition yield (y : StaticString) : gen := {| log := []; yielded := [y] |}.

(** One statement after the other. *)
Definition then_ (g1 g2 : gen) : gen :=
  {| log := log g1 ++ log g2; yielded := yielded g1 ++ yielded g2 |}.

Declare Scope gen_scope.
Delimit Scope gen_scope with gen.
Bind Scope gen_scope with gen.
Notation "g1 ;; g2" := (then_ g1 g2)
  (at level 100, g2 at level 200, right associativity) : gen_scope.
Local Open Scope gen_scope.

(** [for x in l: body(x)]. *)
Fixpoint for_each {A} (l : list A) (body : A -> gen) : gen :=
  match l with
  | [] => stop
  | x :: l' => body x ;; for_each l' body
  end.

(** [exclude and decoded_string in exclude], for [exclude] a [Set[str]] or
    [None]: [None] and the empty set are false. *)
Definition excluded (exclude : option (gset str)) (decoded_string : str) : bool :=
  match exclude with
  | None => false
  | Some X => bool_decide (X ≠ ∅) && bool_decide (decoded_string ∈ X)
  end.

Section ExtractStrings.

(** [MAX_STRING_LENGTH] of [floss/const.py]. *)
Variable MAX_STRING_LENGTH : Z.

(** [floss.strings.extract_ascii_unicode_strings], the run extractor:
    the candidates of a buffer, in the order it yields them. *)
Variable extract_ascii_unicode_strings : bytes -> list StaticString.

(** The body of the loop of [extract_strings], for the candidate [s]. *)
Definition loop_body (min_length : Z) (exclude : option (gset str))
    (s : StaticString) : gen :=
  if MAX_STRING_LENGTH <? len (string_ s) then stop
  else if bool_decide (string_ s ∈ FP_STRINGS) then stop
  else
    let decoded_string := strip_string (string_ s) in
    if len decoded_string <? min_length then stop
    else
      trace (Trace_strip (string_ s) decoded_string) ;;
      if excluded exclude decoded_string then stop
      else yield (mkStaticString decoded_string (offset s) (encoding s)).

(** [extract_strings(buffer, min_length, exclude=None)]. *)
Definition extract_strings (buffer : bytes) (min_length : Z)
    (exclude : option (gset str)) : gen :=
  let buffer_stripped := strip_bytes buffer false in
  trace (Trace_strip_bytes buffer buffer_stripped) ;;
  if len buffer <? min_length then stop
  else
    trace (Scan buffer_stripped) ;;
    for_each (extract_ascii_unicode_strings buffer_stripped)
             (loop_body min_length exclude).

End ExtractStrings.

(** ** The run extractor *)

Module Strings.

(** The printable class: the space through the tilde. *)
Definition printable (c : N) : bool := ((32 <=? c) && (c <=? 126))%N.

(** A run in progress: the offset of its first byte and its text. *)
Definition flush (enc : StringEncoding) (run : option (Z * str))
    : list StaticString :=
  match run with
  | Some (o, t) => [mkStaticString t o enc]
  | None => []
  end.

Definition extend (run : option (Z * str)) (off : Z) (c : N)
    : option (Z * str) :=
  match run with
  | Some (o, t) => Some (o, t ++ [c])
  | None => Some (off, [c])
  end.

(** The maximal runs of printable bytes, of one byte or more. *)
Fixpoint ascii_runs (off : Z) (run : option (Z * str)) (b : bytes)
    : list StaticString :=
  match b with
  | [] => flush ASCII run
  | c :: b' =>
      if printable (Byte.to_N c)
      then ascii_runs (off + 1) (extend run off (Byte.to_N c)) b'
      else flush ASCII run ++ ascii_runs (off + 1) None b'
  end.

(** The maximal runs of printable two-byte little-endian code units: a
    printable byte followed by a null byte. *)
Fixpoint utf16le_runs (off : Z) (run : option (Z * str)) (b : bytes)
    : list StaticString :=
  match b with
  | lo :: ((hi :: b') as tl) =>
      if printable (Byte.to_N lo) && bool_decide (hi = x00)
      then utf16le_runs (off + 2) (extend run off (Byte.to_N lo)) b'
      else flush UTF16LE run ++ utf16le_runs (off + 1) None tl
  | _ => flush UTF16LE run
  end.

(** The order of the candidates: by ascending offset. *)
Definition by_offset (x y : StaticString) : Prop := offset x <= offset y.

#[export] Instance by_offset_dec : RelDecision by_offset :=
  fun x y => decide (offset x <= offset y).

(** Modelled from the spec: [floss.strings.extract_ascii_unicode_strings],
    which is not among the sources.  Every maximal run of printable ASCII
    bytes is reported once, tagged ascii, and every maximal run of
    printable two-byte little-endian code units once, tagged utf16le,
    each with the offset of its first byte and in ascending order of
    offsets; at equal offsets the ascii run comes first.  The printable
    class is read as the space through the tilde in both encodings. *)
Definition extract_ascii_unicode_strings (buf : bytes) : list StaticString :=
  list_merge by_offset
             (ascii_runs 0 None buf) (utf16le_runs 0 None buf).

End Strings.

(** ** The other helpers of [floss/utils.py] *)

(** [STACK_MEM_NAME = "[stack]"]. *)
Definition STACK_MEM_NAME : str := pystr "[stack]".

(** The [info] of a memory map, as [envi] keeps it: the address, the size,
    the permissions and the name; [remove_stack_memory] reads [info[3]]. *)
Definition map_info : Type := Z * Z * Z * str.

(** An entry of a memory snapshot: a 4-tuple whose third component is the
    [info]. *)
Definition memory_map : Type := Z * Z * map_info * bytes.

(** The name of a memory map: [(_, _, info, _) = memory_snap[i]], then
    [info[3]]. *)
Definition map_name (mm : memory_map) : str :=
  let '(_, _, info, _) := mm in
  let '(_, _, _, name) := info in
  name.

(** What [remove_stack_memory] uses of an [envi] emulator: the memory
    snapshot that [getMemorySnap] returns and [setMemorySnap] installs, and
    the attribute [stack_map_base]; [other] stands for the rest of its
    state. *)
Record Emulator (T : Type) : Type := mkEmulator {
  memory_snap : list memory_map;
  stack_map_base : option Z;
  other : T
}.

Arguments mkEmulator {T} _ _ _.
Arguments memory_snap {T} _.
Arguments stack_map_base {T} _.
Arguments other {T} _.

(** The exceptions of this module. *)
Inductive exception : Type :=
| ValueError (msg : str)
| IndexError.

(** The loop of [remove_stack_memory]: [i] runs from [n - 1] down to 0,
    and the first map named [STACK_MEM_NAME] is deleted from the snapshot,
    which is installed with [stack_map_base] reset. *)
Fixpoint remove_stack_memory_loop {T} (emu : Emulator T)
    (memory_snap : list memory_map) (n : nat) : exception + Emulator T :=
  match n with
  | O => inl (ValueError (pystr "`STACK_MEM_NAME` not in memory map"))
  | S i =>
      match memory_snap !! i with
      | None => inl IndexError
      | Some mm =>
          if bool_decide (map_name mm = STACK_MEM_NAME)
          then inr (mkEmulator (delete i memory_snap) None (other emu))
          else remove_stack_memory_loop emu memory_snap i
      end
  end.

(** [remove_stack_memory(emu)]. *)
Definition remove_stack_memory {T} (emu : Emulator T)
    : exception + Emulator T :=
  remove_stack_memory_loop emu (memory_snap emu) (length (memory_snap emu)).

(** The digits of ["%X"]: upper case. *)
Fixpoint upper_hex_digits (d : Hexadecimal.uint) : str :=
  match d with
  | Hexadecimal.Nil => []
  | Hexadecimal.D0 d' => ch "0" :: upper_hex_digits d'
  | Hexadecimal.D1 d' => ch "1" :: upper_hex_digits d'
  | Hexadecimal.D2 d' => ch "2" :: upper_hex_digits d'
  | Hexadecimal.D3 d' => ch "3" :: upper_hex_digits d'
  | Hexadecimal.D4 d' => ch "4" :: upper_hex_digits d'
  | Hexadecimal.D5 d' => ch "5" :: upper_hex_digits d'
  | Hexadecimal.D6 d' => ch "6" :: upper_hex_digits d'
  | Hexadecimal.D7 d' => ch "7" :: upper_hex_digits d'
  | Hexadecimal.D8 d' => ch "8" :: upper_hex_digits d'
  | Hexadecimal.D9 d' => ch "9" :: upper_hex_digits d'
  | Hexadecimal.Da d' => ch "A" :: upper_hex_digits d'
  | Hexadecimal.Db d' => ch "B" :: upper_hex_digits d'
  | Hexadecimal.Dc d' => ch "C" :: upper_hex_digits d'
  | Hexadecimal.Dd d' => ch "D" :: upper_hex_digits d'
  | Hexadecimal.De d' => ch "E" :: upper_hex_digits d'
  | Hexadecimal.Df d' => ch "F" :: upper_hex_digits d'
  end.

(** ["%X" % i] for an [int]: the sign, if negative, then the digits. *)
Definition format_X (i : Z) : str :=
  match Z.to_hex_int i with
  | Hexadecimal.Pos d => upper_hex_digits d
  | Hexadecimal.Neg d => ch "-" :: upper_hex_digits d
  end.

(** [hex(i)]: ["0x%X" % (i)]. *)
Definition hex (i : Z) : str := pystr "0x" ++ format_X i.

(** Reading upper-case hexadecimal digits back. *)
Fixpoint read_hex_digits (s : str) : option Hexadecimal.uint :=
  match s with
  | [] => Some Hexadecimal.Nil
  | c :: s' =>
      d ← read_hex_digits s';
      if (c =? ch "0")%N then Some (Hexadecimal.D0 d)
      else if (c =? ch "1")%N then Some (Hexadecimal.D1 d)
      else if (c =? ch "2")%N then Some (Hexadecimal.D2 d)
      else if (c =? ch "3")%N then Some (Hexadecimal.D3 d)
      else if (c =? ch "4")%N then Some (Hexadecimal.D4 d)
      else if (c =? ch "5")%N then Some (Hexadecimal.D5 d)
      else if (c =? ch "6")%N then Some (Hexadecimal.D6 d)
      else if (c =? ch "7")%N then Some (Hexadecimal.D7 d)
      else if (c =? ch "8")%N then Some (Hexadecimal.D8 d)
      else if (c =? ch "9")%N then Some (Hexadecimal.D9 d)
      else if (c =? ch "A")%N then Some (Hexadecimal.Da d)
      else if (c =? ch "B")%N then Some (Hexadecimal.Db d)
      else if (c =? ch "C")%N then Some (Hexadecimal.Dc d)
      else if (c =? ch "D")%N then Some (Hexadecimal.Dd d)
      else if (c =? ch "E")%N then Some (Hexadecimal.De d)
      else if (c =? ch "F")%N then Some (Hexadecimal.Df d)
      else None
  end.

(** The integer a rendering of [hex] denotes: after "0x", an optional
    minus sign and upper-case digits in base 16. *)
Definition unhex (s : str) : option Z :=
  match s with
  | z :: x :: rest =>
      if (z =? ch "0")%N && (x =? ch "x")%N then
        match rest with
        | c :: digits =>
            if (c =? ch "-")%N
            then d ← read_hex_digits digits;
                 Some (Z.of_hex_int (Hexadecimal.Neg d))
            else d ← read_hex_digits rest;
                 Some (Z.of_hex_int (Hexadecimal.Pos d))
        | [] => None
        end
      else None
  | _ => None
  end.

(** [is_all_zeros(buffer)]: [all([b == 0 for b in buffer])]. *)
Definition is_all_zeros (buffer : bytes) : bool :=
  forallb (fun b => Byte.eqb b x00) buffer.


(** ** What survives the loop *)

(** The four checks of the loop body, in its order. *)
Definition survives (MAX_STRING_LENGTH min_length : Z)
    (exclude : option (gset str)) (s : StaticString) : bool :=
  negb (MAX_STRING_LENGTH <? len (string_ s))
  && negb (bool_decide (string_ s ∈ FP_STRINGS))
  && negb (len (strip_string (string_ s)) <? min_length)
  && negb (excluded exclude (strip_string (string_ s))).

(** The string built from a surviving candidate. *)
Definition filtered (s : StaticString) : StaticString :=
  mkStaticString (strip_string (string_ s)) (offset s) (encoding s).

(** The printable ASCII characters: the codes 32 to 126. *)
Definition printable_ascii : str := N.of_nat <$> seq 32 95.

(** A ceiling for the evaluations at concrete inputs; [floss/const.py] is
    not among the sources, and the theorems hold for every ceiling. *)
Definition sample_ceiling : Z := 2048.

(** * Properties *)

(** ** Generators *)

Lemma yielded_then g1 g2 : yielded (g1 ;; g2) = yielded g1 ++ yielded g2.
Proof. reflexivity. Qed.

Lemma log_then g1 g2 : log (g1 ;; g2) = log g1 ++ log g2.
Proof. reflexivity. Qed.

Lemma len_nonneg {A} (l : list A) : 0 <= len l.
Proof. unfold len; lia. Qed.

Section Pipeline.

Variable MAX_STRING_LENGTH : Z.
Variable extract_ascii_unicode_strings : bytes -> list StaticString.

Local Abbreviation loop_body := (loop_body MAX_STRING_LENGTH).
Local Abbreviation survives := (survives MAX_STRING_LENGTH).
Local Abbreviation extract_strings :=
  (extract_strings MAX_STRING_LENGTH extract_ascii_unicode_strings).

(** One iteration yields the filtered candidate when the four checks
    pass, and nothing otherwise. *)
Lemma loop_body_yielded L X c :
  yielded (loop_body L X c) = if survives L X c then [filtered c] else [].
Proof.
  unfold loop_body, survives, filtered.
  destruct (MAX_STRING_LENGTH <? len (string_ c)); [reflexivity|].
  destruct (bool_decide (string_ c ∈ FP_STRINGS)); [reflexivity|].
  destruct (len (strip_string (string_ c)) <? L); [reflexivity|].
  rewrite yielded_then; simpl.
  destruct (excluded X (strip_string (string_ c))); reflexivity.
Qed.

(** The loop yields the filtered survivors, in the order of the
    candidates. *)
Lemma for_each_yielded L X l :
  yielded (for_each l (loop_body L X))
  = filtered <$> filter (fun c => survives L X c = true) l.
Proof.
  induction l as [|c l IH]; [reflexivity|].
  simpl for_each. rewrite yielded_then, loop_body_yielded, IH.
  rewrite filter_cons.
  destruct (survives L X c) eqn:E.
  - rewrite decide_True by reflexivity. reflexivity.
  - rewrite decide_False by discriminate. reflexivity.
Qed.

(** The loop logs [strip] lines only. *)
Lemma for_each_log L X l e :
  e ∈ log (for_each l (loop_body L X)) ->
  exists s d, e = Trace_strip s d.
Proof.
  induction l as [|c l IH]; simpl.
  - intros Hin. inversion Hin.
  - rewrite elem_of_app. intros [Hin|Hin]; [|exact (IH Hin)].
    unfold loop_body in Hin.
    destruct (MAX_STRING_LENGTH <? len (string_ c)); [inversion Hin|].
    destruct (bool_decide (string_ c ∈ FP_STRINGS)); [inversion Hin|].
    destruct (len (strip_string (string_ c)) <? L); [inversion Hin|].
    rewrite log_then in Hin. apply elem_of_app in Hin as [Hin|Hin].
    + apply list_elem_of_singleton in Hin. eauto.
    + destruct (excluded X (strip_string (string_ c))); inversion Hin.
Qed.

(** The pre-filter is off: [strip_bytes] hands the buffer back. *)
Lemma strip_bytes_disabled b : strip_bytes b false = b.
Proof. reflexivity. Qed.

(** The two outcomes of a call. *)
Lemma extract_strings_short b L X :
  len b < L ->
  extract_strings b L X = trace (Trace_strip_bytes b b).
Proof.
  intros Hlt. unfold extract_strings.
  rewrite strip_bytes_disabled.
  apply Z.ltb_lt in Hlt. rewrite Hlt. reflexivity.
Qed.

Lemma extract_strings_scan b L X :
  L <= len b ->
  extract_strings b L X
  = (trace (Trace_strip_bytes b b) ;; trace (Scan b) ;;
     for_each (extract_ascii_unicode_strings b) (loop_body L X)).
Proof.
  intros Hle. unfold extract_strings.
  rewrite strip_bytes_disabled.
  apply Z.ltb_ge in Hle. rewrite Hle. reflexivity.
Qed.

Lemma extract_strings_yielded b L X :
  yielded (extract_strings b L X)
  = if len b <? L then []
    else filtered <$> filter (fun c => survives L X c = true)
                             (extract_ascii_unicode_strings b).
Proof.
  destruct (len b <? L) eqn:E.
  - apply Z.ltb_lt in E. rewrite extract_strings_short by exact E.
    reflexivity.
  - apply Z.ltb_ge in E. rewrite extract_strings_scan by exact E.
    rewrite !yielded_then. simpl. apply for_each_yielded.
Qed.

(** A supplied set excludes its members, the empty set none. *)
Lemma excluded_Some (X : gset str) (d : str) :
  excluded (Some X) d = bool_decide (d ∈ X).
Proof.
  unfold excluded. destruct (bool_decide (d ∈ X)) eqn:E.
  - apply bool_decide_eq_true in E.
    rewrite bool_decide_eq_true_2; [reflexivity|]. set_solver.
  - apply andb_false_r.
Qed.

Lemma survives_Some (L : Z) (X : gset str) (c : StaticString) :
  survives L (Some X) c
  = survives L None c && bool_decide (strip_string (string_ c) ∉ X).
Proof.
  unfold survives. rewrite excluded_Some. simpl excluded.
  rewrite andb_true_r. f_equal.
  destruct (decide (strip_string (string_ c) ∈ X)) as [Hin|Hin].
  - rewrite bool_decide_eq_true_2, bool_decide_eq_false_2; auto.
  - rewrite bool_decide_eq_false_2, bool_decide_eq_true_2; auto.
Qed.

(** *** The length checks *)

(** C4: a buffer shorter than [min_length] yields the empty sequence; the
    call returns after the first [logger.trace] line, and the run extractor
    is never called. *)
Theorem short_buffer_yields_nothing b L X :
  len b < L ->
  extract_strings b L X = {| log := [Trace_strip_bytes b b]; yielded := [] |}
  /\ yielded (extract_strings b L X) = []
  /\ forall b', Scan b' ∉ log (extract_strings b L X).
Proof.
  intros Hlt. rewrite extract_strings_short by exact Hlt.
  split; [reflexivity|]. split; [reflexivity|].
  intros b' Hin. apply list_elem_of_singleton in Hin. discriminate Hin.
Qed.

(** C1, as the code has it: a negative [min_length] is not rejected.  The
    buffer is scanned, neither length check drops anything, and the call
    does what a call with [min_length = 0] does. *)
Theorem negative_min_length_not_rejected b L X :
  L < 0 ->
  extract_strings b L X = extract_strings b 0 X
  /\ Scan b ∈ log (extract_strings b L X)
  /\ yielded (extract_strings b L X)
     = filtered <$> filter (fun c => survives 0 X c = true)
                           (extract_ascii_unicode_strings b).
Proof.
  intros Hneg.
  assert (Hbody : forall c, loop_body L X c = loop_body 0 X c).
  { intros c. unfold loop_body.
    pose proof (len_nonneg (strip_string (string_ c))) as Hlen.
    replace (len (strip_string (string_ c)) <? L) with false
      by (symmetry; apply Z.ltb_ge; lia).
    replace (len (strip_string (string_ c)) <? 0) with false
      by (symmetry; apply Z.ltb_ge; lia).
    reflexivity. }
  assert (Heq : extract_strings b L X = extract_strings b 0 X).
  { pose proof (len_nonneg b) as Hlen.
    rewrite !extract_strings_scan by lia.
    do 2 f_equal.
    induction (extract_ascii_unicode_strings b) as [|c l IH]; simpl;
      [reflexivity|]. rewrite Hbody, IH. reflexivity. }
  split; [exact Heq|]. split.
  - pose proof (len_nonneg b) as Hlen.
    rewrite extract_strings_scan by lia.
    rewrite !log_then. simpl. set_solver.
  - rewrite Heq, extract_strings_yielded.
    pose proof (len_nonneg b) as Hlen.
    replace (len b <? 0) with false by (symmetry; apply Z.ltb_ge; lia).
    reflexivity.
Qed.

(** C5: every string yielded has at least [min_length] characters after
    the affixes are stripped; a candidate whose stripped text is shorter
    ends its iteration with nothing logged and nothing yielded, and the
    string it would have given is not in the output. *)
Theorem yielded_at_least_min_length b L X :
  (forall y, y ∈ yielded (extract_strings b L X) -> L <= len (string_ y))
  /\ (forall c, len (strip_string (string_ c)) < L ->
        loop_body L X c = stop
        /\ filtered c ∉ yielded (extract_strings b L X)).
Proof.
  assert (Hmin : forall y,
    y ∈ yielded (extract_strings b L X) -> L <= len (string_ y)).
  { intros y. rewrite extract_strings_yielded.
    destruct (len b <? L); [intros Hin; inversion Hin|].
    intros Hin. apply list_elem_of_fmap in Hin as (c & -> & Hc).
    apply list_elem_of_filter in Hc as [Hs _].
    unfold survives in Hs. simpl.
    apply andb_prop in Hs as [Hs _]. apply andb_prop in Hs as [_ Hs].
    apply negb_true_iff, Z.ltb_ge in Hs. exact Hs. }
  split; [exact Hmin|].
  intros c Hlt. split.
  - unfold loop_body.
    destruct (MAX_STRING_LENGTH <? len (string_ c)); [reflexivity|].
    destruct (bool_decide (string_ c ∈ FP_STRINGS)); [reflexivity|].
    apply Z.ltb_lt in Hlt. rewrite Hlt. reflexivity.
  - intros Hin. apply Hmin in Hin. simpl in Hin. lia.
Qed.

(** *** The denylist *)

Lemma printable_ascii_in_FP_STRINGS : printable_ascii ∈ FP_STRINGS.
Proof.
  apply (bool_decide_unpack _). vm_compute. exact I.
Qed.

Lemma runtime_error_in_FP_STRINGS : pystr "Runtime Error!" ∈ FP_STRINGS.
Proof.
  apply (bool_decide_unpack _). vm_compute. exact I.
Qed.

(** *** The exclusion set *)


(** *** Offsets and encodings *)

(** C8: every string yielded comes from a candidate of the run extractor
    that passed the four checks, with the candidate's offset and encoding
    and the candidate's stripped text; the offsets and encodings yielded
    are those of the surviving candidates, in their order. *)
Theorem offset_and_encoding_preserved b L X :
  (forall y, y ∈ yielded (extract_strings b L X) ->
     exists c, c ∈ extract_ascii_unicode_strings b
       /\ survives L X c = true
       /\ string_ y = strip_string (string_ c)
       /\ offset y = offset c
       /\ encoding y = encoding c)
  /\ (L <= len b ->
      (fun y => (offset y, encoding y)) <$> yielded (extract_strings b L X)
      = (fun c => (offset c, encoding c))
          <$> filter (fun c => survives L X c = true)
                     (extract_ascii_unicode_strings b)).
Proof.
  split.
  - intros y. rewrite extract_strings_yielded.
    destruct (len b <? L); [intros Hin; inversion Hin|].
    intros Hin. apply list_elem_of_fmap in Hin as (c & -> & Hc).
    apply list_elem_of_filter in Hc as [Hs Hc].
    exists c. repeat split; assumption.
  - intros Hle. rewrite extract_strings_yielded.
    apply Z.ltb_ge in Hle. rewrite Hle.
    rewrite <- list_fmap_compose. reflexivity.
Qed.

End Pipeline.

(** *** The denylist, on the whole sequence *)

Lemma filter_survives_denylist MAX_STRING_LENGTH L X (l : list StaticString) :
  filter (fun c => survives MAX_STRING_LENGTH L X c = true)
         (filter (fun c => string_ c ∉ FP_STRINGS) l)
  = filter (fun c => survives MAX_STRING_LENGTH L X c = true) l.
Proof.
  induction l as [|c l IH]; [reflexivity|].
  rewrite (filter_cons (fun c => string_ c ∉ FP_STRINGS)).
  destruct (decide (string_ c ∉ FP_STRINGS)) as [Hout|Hin].
  - rewrite !filter_cons, IH. reflexivity.
  - rewrite IH, filter_cons. apply dec_stable in Hin.
    rewrite decide_False; [reflexivity|].
    unfold survives. rewrite (bool_decide_eq_true_2 _ Hin).
    rewrite andb_false_r. discriminate.
Qed.

(** C6: the denylist holds "Runtime Error!" and the printable ASCII
    alphabet; a candidate whose text, before stripping, is an entry of the
    denylist ends its iteration with nothing logged and nothing yielded,
    so the output is that of the candidates outside the denylist; and a
    candidate that is not an entry and yields nothing was dropped by one of
    the other checks. *)
Theorem denylist_discards_exact_matches (MAX_STRING_LENGTH : Z)
    (extract : bytes -> list StaticString)
    (b : bytes) (L : Z) (X : option (gset str)) :
  pystr "Runtime Error!" ∈ FP_STRINGS
  /\ printable_ascii ∈ FP_STRINGS
  /\ (forall c, string_ c ∈ FP_STRINGS ->
        loop_body MAX_STRING_LENGTH L X c = stop)
  /\ yielded (extract_strings MAX_STRING_LENGTH extract b L X)
     = yielded (extract_strings MAX_STRING_LENGTH
                  (fun b' => filter (fun c => string_ c ∉ FP_STRINGS)
                                    (extract b'))
                  b L X)
  /\ (forall c, string_ c ∉ FP_STRINGS ->
        yielded (loop_body MAX_STRING_LENGTH L X c) = [] ->
        MAX_STRING_LENGTH < len (string_ c)
        \/ len (strip_string (string_ c)) < L
        \/ excluded X (strip_string (string_ c)) = true).
Proof.
  split; [exact runtime_error_in_FP_STRINGS|].
  split; [exact printable_ascii_in_FP_STRINGS|].
  split; [|split].
  - intros c Hin. unfold loop_body.
    rewrite (bool_decide_eq_true_2 _ Hin).
    destruct (MAX_STRING_LENGTH <? len (string_ c)); reflexivity.
  - rewrite !extract_strings_yielded.
    destruct (len b <? L); [reflexivity|].
    rewrite filter_survives_denylist. reflexivity.
  - intros c Hout. rewrite loop_body_yielded. unfold survives.
    rewrite (bool_decide_eq_false_2 _ Hout). simpl. rewrite andb_true_r.
    destruct (MAX_STRING_LENGTH <? len (string_ c)) eqn:E1;
      [apply Z.ltb_lt in E1; auto|].
    destruct (len (strip_string (string_ c)) <? L) eqn:E2;
      [apply Z.ltb_lt in E2; auto|].
    destruct (excluded X (strip_string (string_ c))); [auto|].
    simpl. discriminate.
Qed.

(** *** The pre-filter *)

(** C10: [extract_strings], whose parameters are the buffer, [min_length]
    and the exclusion set, calls [strip_bytes] with the pre-filter off: the
    buffer comes back unchanged, the run extractor is called on no other
    bytes than the caller's, and a buffer of [min_length] bytes or more is
    scanned as it is. *)
Theorem prefilter_always_disabled (MAX_STRING_LENGTH : Z)
    (extract : bytes -> list StaticString)
    (b : bytes) (L : Z) (X : option (gset str)) :
  strip_bytes b false = b
  /\ (forall b', Scan b' ∈ log (extract_strings MAX_STRING_LENGTH extract b L X) ->
        b' = b)
  /\ (L <= len b ->
      extract_strings MAX_STRING_LENGTH extract b L X
      = (trace (Trace_strip_bytes b b) ;; trace (Scan b) ;;
         for_each (extract b) (loop_body MAX_STRING_LENGTH L X))).
Proof.
  split; [reflexivity|]. split.
  - intros b'. destruct (Z.lt_ge_cases (len b) L) as [Hlt|Hge].
    + rewrite extract_strings_short by exact Hlt.
      intros Hin. apply list_elem_of_singleton in Hin. discriminate Hin.
    + rewrite extract_strings_scan by exact Hge.
      rewrite !log_then. simpl. intros Hin.
      apply elem_of_cons in Hin as [Hin|Hin]; [discriminate Hin|].
      apply elem_of_cons in Hin as [Hin|Hin]; [congruence|].
      apply for_each_log in Hin as (s & d & Hin). discriminate Hin.
  - apply extract_strings_scan.
Qed.

(** ** The code at concrete inputs *)

(** C1, refuted: with [min_length = -1] the five bytes of "hello" are
    scanned and the string is yielded. *)
Lemma negative_min_length_yields :
  extract_strings sample_ceiling Strings.extract_ascii_unicode_strings
    (pybytes "hello") (-1) None
  = {| log := [Trace_strip_bytes (pybytes "hello") (pybytes "hello");
               Scan (pybytes "hello");
               Trace_strip (pystr "hello") (pystr "hello")];
       yielded := [mkStaticString (pystr "hello") 0 ASCII] |}.
Proof. vm_compute. reflexivity. Qed.

Lemma negative_min_length_not_rejected_witness :
  -1 < 0
  /\ extract_strings sample_ceiling Strings.extract_ascii_unicode_strings
       (pybytes "hello") (-1) None
     = extract_strings sample_ceiling Strings.extract_ascii_unicode_strings
         (pybytes "hello") 0 None.
Proof.
  split; [reflexivity|].
  apply (negative_min_length_not_rejected sample_ceiling
           Strings.extract_ascii_unicode_strings (pybytes "hello") (-1) None).
  reflexivity.
Defined.

Lemma short_buffer_yields_nothing_witness :
  len (pybytes "abc") < 4
  /\ yielded (extract_strings sample_ceiling
                Strings.extract_ascii_unicode_strings (pybytes "abc") 4 None)
     = [].
Proof.
  split; [reflexivity|].
  apply (short_buffer_yields_nothing sample_ceiling
           Strings.extract_ascii_unicode_strings (pybytes "abc") 4 None).
  reflexivity.
Defined.

(** "0VAhello" has eight characters and five once stripped: with
    [min_length = 6] it is dropped. *)
Lemma yielded_at_least_min_length_witness :
  len (strip_string (pystr "0VAhello")) < 6
  /\ loop_body sample_ceiling 6 None (mkStaticString (pystr "0VAhello") 0 ASCII)
     = stop.
Proof.
  split; [reflexivity|].
  apply (proj2 (yielded_at_least_min_length sample_ceiling
                  Strings.extract_ascii_unicode_strings
                  (pybytes "0VAhello") 6 None)
               (mkStaticString (pystr "0VAhello") 0 ASCII)).
  reflexivity.
Defined.

(** A buffer that is "Runtime Error!" and nothing else yields nothing,
    while one more character lets the candidate through. *)
Lemma runtime_error_buffer_yields_nothing :
  yielded (extract_strings sample_ceiling Strings.extract_ascii_unicode_strings
             (pybytes "Runtime Error!") 4 None) = []
  /\ yielded (extract_strings sample_ceiling
                Strings.extract_ascii_unicode_strings
                (pybytes "Runtime Error!!") 4 None)
     = [mkStaticString (pystr "Runtime Error!!") 0 ASCII].
Proof. split; vm_compute; reflexivity. Qed.

Lemma denylist_discards_exact_matches_witness :
  pystr "Runtime Error!" ∈ FP_STRINGS
  /\ loop_body sample_ceiling 4 None
       (mkStaticString (pystr "Runtime Error!") 0 ASCII) = stop.
Proof.
  pose proof (denylist_discards_exact_matches sample_ceiling
                Strings.extract_ascii_unicode_strings
                (pybytes "Runtime Error!") 4 None) as (Hin & _ & Hdrop & _).
  split; [exact Hin|].
  exact (Hdrop (mkStaticString (pystr "Runtime Error!") 0 ASCII) Hin).
Defined.


(** "0VAhello" at offset 0 is yielded as "hello", still at offset 0. *)
Lemma offset_and_encoding_preserved_witness :
  mkStaticString (pystr "hello") 0 ASCII
    ∈ yielded (extract_strings sample_ceiling
                 Strings.extract_ascii_unicode_strings
                 (pybytes "0VAhello") 4 None)
  /\ exists c,
       c ∈ Strings.extract_ascii_unicode_strings (pybytes "0VAhello")
       /\ survives sample_ceiling 4 None c = true
       /\ pystr "hello" = strip_string (string_ c)
       /\ 0 = offset c
       /\ ASCII = encoding c.
Proof.
  assert (Hin : mkStaticString (pystr "hello") 0 ASCII
                  ∈ yielded (extract_strings sample_ceiling
                               Strings.extract_ascii_unicode_strings
                               (pybytes "0VAhello") 4 None)).
  { apply (bool_decide_unpack _). vm_compute. exact I. }
  split; [exact Hin|].
  exact (proj1 (offset_and_encoding_preserved sample_ceiling
                  Strings.extract_ascii_unicode_strings
                  (pybytes "0VAhello") 4 None) _ Hin).
Defined.

(** The bytes "AAAAA" reach the run extractor as they are, although the
    pre-filter would rewrite them. *)
Lemma prefilter_always_disabled_witness :
  4 <= len (pybytes "AAAAA")
  /\ strip_bytes (pybytes "AAAAA") true <> pybytes "AAAAA"
  /\ extract_strings sample_ceiling Strings.extract_ascii_unicode_strings
       (pybytes "AAAAA") 4 None
     = (trace (Trace_strip_bytes (pybytes "AAAAA") (pybytes "AAAAA")) ;;
        trace (Scan (pybytes "AAAAA")) ;;
        for_each (Strings.extract_ascii_unicode_strings (pybytes "AAAAA"))
                 (loop_body sample_ceiling 4 None)).
Proof.
  split; [discriminate|]. split; [discriminate|].
  apply (proj2 (proj2 (prefilter_always_disabled sample_ceiling
                  Strings.extract_ascii_unicode_strings
                  (pybytes "AAAAA") 4 None))).
  discriminate.
Defined.

(** ** The affix patterns *)

(** C2, at "hello@AAworld": the prefix substitution removes the "@AA" in
    the middle of the text, and [strip_string] returns "helloworld", which
    is not the text less a leading fragment. *)
Theorem prefix_family_strips_inner_fragment :
  sub FP_FILTER_PREFIXES [] (pystr "hello@AAworld") = pystr "helloworld"
  /\ strip_string (pystr "hello@AAworld") = pystr "helloworld"
  /\ ~ (exists fragment : str,
          pystr "hello@AAworld" = fragment ++ pystr "helloworld").
Proof.
  split; [vm_compute; reflexivity|]. split; [vm_compute; reflexivity|].
  intros [fragment Heq].
  assert (Hlen : length fragment = 3%nat).
  { apply (f_equal length) in Heq. rewrite length_app in Heq.
    change (length (pystr "hello@AAworld")) with 13%nat in Heq.
    change (length (pystr "helloworld")) with 10%nat in Heq. lia. }
  destruct fragment as [|a [|b [|c [|d fragment]]]]; try discriminate Hlen.
  vm_compute in Heq. discriminate Heq.
Qed.

(** ** The byte pre-filter *)

(** C3, at four and at five newline bytes: enabled, the pre-filter leaves
    them as they are, while it rewrites five "A" bytes to two null
    bytes. *)
Theorem newline_run_not_collapsed :
  strip_bytes [x0a; x0a; x0a; x0a] true = [x0a; x0a; x0a; x0a]
  /\ strip_bytes [x0a; x0a; x0a; x0a; x0a] true = [x0a; x0a; x0a; x0a; x0a]
  /\ strip_bytes (pybytes "AAAAA") true = [x00; x00]
  /\ strip_bytes (pybytes "xyAAAAAzt") true
     = pybytes "xy" ++ [x00; x00] ++ pybytes "zt".
Proof. repeat split; vm_compute; reflexivity. Qed.

(** ** The matcher *)

Section MatcherFacts.
Context {A : Type} `{Symbol A}.
Local Open Scope nat_scope.

Lemma sym_eqb_refl (a : A) : sym_eqb a a = true.
Proof. apply sym_eqb_eq. reflexivity. Qed.

Lemma sym_eqb_neq (a b : A) : a <> b -> sym_eqb a b = false.
Proof.
  intros Hne. destruct (sym_eqb a b) eqn:E; [|reflexivity].
  apply sym_eqb_eq in E. contradiction.
Qed.

(** A text in which the pattern matches nowhere is copied as it is. *)
Lemma sub_loop_no_match (r : regex A) (repl : list A) (pos : nat) (s : list A) :
  search_from r pos s = None -> sub_loop r repl 0 pos s = s.
Proof.
  revert pos. induction s as [|c s IH]; intros pos Hno; simpl in *.
  - destruct (match_at r false pos []); [discriminate|reflexivity].
  - destruct (match_at r false pos (c :: s)); [discriminate|].
    rewrite (IH _ Hno). reflexivity.
Qed.

Lemma sub_no_match (r : regex A) (repl : list A) (s : list A) :
  search r s = None -> sub r repl s = s.
Proof. apply sub_loop_no_match. Qed.

Lemma is_prefix_length (t s : list A) :
  is_prefix t s = true -> length t <= length s.
Proof.
  revert s. induction t as [|a t IH]; intros [|c s] Hp; simpl in *;
    try lia; try discriminate.
  apply andb_prop in Hp as [_ Hp]. apply IH in Hp. lia.
Qed.

(** Where a match succeeds, the continuation succeeded at a position that
    is at least [min_len r] further, with the rest of the text in step. *)
Lemma m_min_len {R : Type} (r : regex A) :
  forall pos s caps (k : @cont A R) x,
    m r pos s caps k = Some x ->
    exists pos' s' caps',
      k pos' s' caps' = Some x
      /\ pos + min_len r <= pos'
      /\ pos' + length s' = pos + length s.
Proof.
  induction r as [|a| |l| | |r1 IH1 r2 IH2|r1 IH1 r2 IH2|r IH|i r IH|i];
    intros pos s caps k x Hm; cbn [m min_len] in Hm |- *.
  - exists pos, s, caps. repeat split; [exact Hm|lia].
  - destruct s as [|c s]; [discriminate|].
    destruct (sym_eqb c a); [|discriminate].
    exists (S pos), s, caps. simpl. repeat split; [exact Hm|lia|lia].
  - destruct s as [|c s]; [discriminate|].
    destruct (sym_eqb c newline); [discriminate|].
    exists (S pos), s, caps. simpl. repeat split; [exact Hm|lia|lia].
  - destruct s as [|c s]; [discriminate|].
    destruct (existsb (sym_eqb c) l); [|discriminate].
    exists (S pos), s, caps. simpl. repeat split; [exact Hm|lia|lia].
  - destruct (pos =? 0); [|discriminate].
    exists pos, s, caps. repeat split; [exact Hm|lia].
  - exists pos, s, caps.
    destruct s as [|c [|d s]]; [|destruct (sym_eqb c newline)|];
      try discriminate; repeat split; try exact Hm; lia.
  - apply IH1 in Hm as (p1 & s1 & c1 & Hm & Hp1 & Hs1).
    apply IH2 in Hm as (p2 & s2 & c2 & Hm & Hp2 & Hs2).
    exists p2, s2, c2. repeat split; [exact Hm|lia|lia].
  - destruct (m r1 pos s caps k) eqn:E1.
    + injection Hm as ->.
      apply IH1 in E1 as (p1 & s1 & c1 & Hk & Hp1 & Hs1).
      exists p1, s1, c1. repeat split; [exact Hk|lia|lia].
    + apply IH2 in Hm as (p2 & s2 & c2 & Hk & Hp2 & Hs2).
      exists p2, s2, c2. repeat split; [exact Hk|lia|lia].
  - revert Hm. generalize (length s) at 1 as fuel. intros fuel.
    revert pos s caps.
    induction fuel as [|fuel IHf]; intros pos s caps Hm.
    + exists pos, s, caps. repeat split; [exact Hm|lia].
    + match type of Hm with
      | match ?e with _ => _ end = _ => destruct e eqn:E
      end.
      * injection Hm as ->.
        apply IH in E as (p1 & s1 & c1 & Hk & Hp1 & Hs1).
        destruct (length s1 <? length s) eqn:Elt; [|discriminate].
        apply IHf in Hk as (p2 & s2 & c2 & Hk & Hp2 & Hs2).
        exists p2, s2, c2. repeat split; [exact Hk|lia|lia].
      * exists pos, s, caps. repeat split; [exact Hm|lia].
  - apply IH in Hm as (p1 & s1 & c1 & Hk & Hp1 & Hs1).
    exists p1, s1, (<[i := take (p1 - pos) s]> c1).
    repeat split; [exact Hk|lia|lia].
  - destruct (caps !! i) as [t|]; [|discriminate].
    destruct (is_prefix t s) eqn:Ep; [|discriminate].
    apply is_prefix_length in Ep.
    exists (pos + length t), (drop (length t) s), caps.
    rewrite length_drop. repeat split; [exact Hm|lia|lia].
Qed.

(** A match is at least [min_len r] characters long, and no longer than
    the text. *)
Lemma match_at_min_len (r : regex A) adv pos s n :
  match_at r adv pos s = Some n -> min_len r <= n <= length s.
Proof.
  unfold match_at. intros Hm.
  apply m_min_len in Hm as (p & s' & c & Hk & Hp & Hs).
  destruct (adv && (p =? pos)); [discriminate|].
  injection Hk as <-. lia.
Qed.

(** [\i*] after a group that holds the single character [c] takes the
    whole run of [c], when the match has already advanced. *)
Lemma star_backref_run (i : nat) (c : A) (caps : captures) adv p0 pos s :
  caps !! i = Some [c] ->
  p0 < pos ->
  m (Star (Backref i)) pos s caps
    (fun pos' _ _ => if adv && (pos' =? p0) then None else Some (pos' - p0))
  = Some (pos + run_length c s - p0).
Proof.
  intros Hc. revert pos. induction s as [|d s IH]; intros pos Hlt.
  - cbn. replace (pos =? p0) with false by (symmetry; apply Nat.eqb_neq; lia).
    rewrite andb_false_r. f_equal. lia.
  - cbn [m length run_length]. rewrite Hc. cbn [is_prefix length drop].
    destruct (sym_eqb d c) eqn:E; cbn [andb].
    + rewrite drop_0.
      replace (length s <? S (length s)) with true
        by (symmetry; apply Nat.ltb_lt; lia).
      specialize (IH (pos + 1) ltac:(lia)). cbn [m] in IH.
      rewrite IH. f_equal. lia.
    + replace (pos =? p0) with false by (symmetry; apply Nat.eqb_neq; lia).
      rewrite andb_false_r. f_equal. lia.
Qed.

(** [\i] after a group that holds the single character [c]. *)
Lemma backref_single {R : Type} (i : nat) (c : A) (caps : captures) pos s
    (k : @cont A R) :
  caps !! i = Some [c] ->
  m (Backref i) pos s caps k
  = match s with
    | d :: s' => if sym_eqb d c then k (pos + 1) s' caps else None
    | [] => None
    end.
Proof.
  intros Hc. cbn [m]. rewrite Hc. destruct s as [|d s]; [reflexivity|].
  cbn [is_prefix length drop]. rewrite drop_0.
  destruct (sym_eqb d c); reflexivity.
Qed.

(** The equations of the matcher that the proofs below rewrite with. *)
Lemma m_Seq {R : Type} (r1 r2 : regex A) pos s caps (k : @cont A R) :
  m (Seq r1 r2) pos s caps k
  = m r1 pos s caps (fun pos' s' caps' => m r2 pos' s' caps' k).
Proof. reflexivity. Qed.

Lemma m_Group {R : Type} (i : nat) (r : regex A) pos s caps (k : @cont A R) :
  m (Group i r) pos s caps k
  = m r pos s caps (fun pos' s' caps' =>
      k pos' s' (<[i := take (pos' - pos) s]> caps')).
Proof. reflexivity. Qed.

Lemma m_Dot {R : Type} pos (c : A) s caps (k : @cont A R) :
  m Dot pos (c :: s) caps k
  = if sym_eqb c newline then None else k (S pos) s caps.
Proof. reflexivity. Qed.

(** [(.)\1{3,}] matches at a character other than the newline that is
    followed by three or more copies of itself, and takes them all. *)
Lemma match_at_repeated (adv : bool) (pos : nat) (s : list A) :
  match_at (Seq (Group 1 Dot) (AtLeast 3 (Backref 1))) adv pos s
  = match s with
    | c :: s' =>
        if sym_eqb c newline then None
        else if 3 <=? run_length c s' then Some (S (run_length c s'))
        else None
    | [] => None
    end.
Proof.
  unfold match_at. cbn [AtLeast]. destruct s as [|c s]; [reflexivity|].
  rewrite m_Seq, m_Group, m_Dot.
  destruct (sym_eqb c newline); [reflexivity|].
  replace (S pos - pos) with 1 by lia. cbn [take].
  set (caps := <[1 := [c]]> (∅ : gmap nat (list A))).
  assert (Hc : caps !! 1 = Some [c]) by apply lookup_insert_eq.
  rewrite m_Seq, (backref_single 1 c caps _ _ _ Hc).
  destruct s as [|d1 s]; [reflexivity|]. cbn [run_length].
  destruct (sym_eqb d1 c); [|reflexivity].
  rewrite m_Seq, (backref_single 1 c caps _ _ _ Hc).
  destruct s as [|d2 s]; [reflexivity|]. cbn [run_length].
  destruct (sym_eqb d2 c); [|reflexivity].
  rewrite m_Seq, (backref_single 1 c caps _ _ _ Hc).
  destruct s as [|d3 s]; [reflexivity|]. cbn [run_length].
  destruct (sym_eqb d3 c); [|reflexivity].
  rewrite (star_backref_run 1 c caps adv pos _ s Hc) by lia.
  cbn [Nat.leb]. f_equal. lia.
Qed.

(** *** Runs *)

Lemma run_length_le (c : A) (s : list A) : run_length c s <= length s.
Proof.
  induction s as [|d s IH]; simpl; [lia|].
  destruct (sym_eqb d c); lia.
Qed.

Lemma run_length_replicate (c : A) (n : nat) (s : list A) :
  head s <> Some c -> run_length c (replicate n c ++ s) = n.
Proof.
  intros Hhd. induction n as [|n IH]; simpl.
  - destruct s as [|d s]; [reflexivity|]. simpl.
    rewrite sym_eqb_neq; [reflexivity|]. intros ->. apply Hhd. reflexivity.
  - rewrite sym_eqb_refl, IH. reflexivity.
Qed.

(** A run that starts before a boundary where the character changes ends
    at the boundary at the latest. *)
Lemma run_length_boundary (a c : A) (pre rest : list A) :
  last (a :: pre) <> Some c ->
  run_length a (pre ++ c :: rest) = run_length a pre.
Proof.
  induction pre as [|d pre IH]; intros Hlast; simpl.
  - rewrite sym_eqb_neq; [reflexivity|].
    intros ->. apply Hlast. reflexivity.
  - destruct (sym_eqb d a) eqn:E; [|reflexivity].
    apply sym_eqb_eq in E. subst d. rewrite IH; [reflexivity|].
    destruct pre; exact Hlast.
Qed.

(** *** [sub] *)

(** Passing over the rest of a match. *)
Lemma sub_loop_skip (r : regex A) (repl : list A) (k pos : nat) (s : list A) :
  k <= length s ->
  sub_loop r repl k pos s = sub_loop r repl 0 (pos + k) (drop k s).
Proof.
  revert pos s. induction k as [|k IH]; intros pos s Hk.
  - rewrite Nat.add_0_r, drop_0. reflexivity.
  - destruct s as [|c s]; simpl in Hk; [lia|].
    cbn [sub_loop drop]. rewrite IH by lia. f_equal. lia.
Qed.

(** A pattern without [^] is replaced alike wherever the text starts. *)
Lemma sub_loop_shift (r : regex A) (repl : list A) :
  (forall adv pos s, match_at r adv pos s = match_at r adv 0 s) ->
  forall k pos s, sub_loop r repl k pos s = sub_loop r repl k 0 s.
Proof.
  intros Hpos k pos s. revert k pos.
  induction s as [|c s IH]; intros k pos.
  - destruct k; cbn [sub_loop]; [|reflexivity].
    rewrite (Hpos false pos), (Hpos true pos). reflexivity.
  - destruct k as [|k]; cbn [sub_loop].
    + rewrite (Hpos false pos), (Hpos true pos).
      rewrite (IH 0 (S pos)), (IH 0 1).
      destruct (match_at r false 0 (c :: s)) as [[|n]|];
        [destruct (match_at r true 0 (c :: s)) as [[|n]|]| |];
        try reflexivity; rewrite (IH n (S pos)), (IH n 1); reflexivity.
    + rewrite (IH k (S pos)), (IH k 1). reflexivity.
Qed.

(** *** The repeated-character pattern *)

Lemma match_at_repeated_shift (adv : bool) (pos : nat) (s : list A) :
  match_at (Seq (Group 1 Dot) (AtLeast 3 (Backref 1))) adv pos s
  = match_at (Seq (Group 1 Dot) (AtLeast 3 (Backref 1))) adv 0 s.
Proof. rewrite !match_at_repeated. reflexivity. Qed.

(** The substitution works on each side of a boundary where the character
    changes as it does on the side alone. *)
Lemma sub_loop_repeated_boundary (repl : list A) (c : A) (rest : list A) :
  forall pre k pos,
    k <= length pre ->
    last pre <> Some c ->
    sub_loop (Seq (Group 1 Dot) (AtLeast 3 (Backref 1))) repl k pos
             (pre ++ c :: rest)
    = sub_loop (Seq (Group 1 Dot) (AtLeast 3 (Backref 1))) repl k pos pre
      ++ sub_loop (Seq (Group 1 Dot) (AtLeast 3 (Backref 1))) repl 0
                  (pos + length pre) (c :: rest).
Proof.
  induction pre as [|a pre IH]; intros k pos Hk Hlast.
  - simpl in Hk. replace k with 0 by lia.
    rewrite Nat.add_0_r. cbn [app sub_loop].
    rewrite match_at_repeated. reflexivity.
  - assert (Hlast' : last pre <> Some c).
    { destruct pre; [discriminate|exact Hlast]. }
    change ((a :: pre) ++ c :: rest) with (a :: (pre ++ c :: rest)).
    replace (pos + length (a :: pre)) with (S pos + length pre)
      by (simpl; lia).
    pose proof (fun k Hk => IH k (S pos) Hk Hlast') as IH'.
    set (tail := sub_loop _ repl 0 (S pos + length pre) (c :: rest)) in *.
    clearbody tail. clear IH.
    destruct k as [|k]; cbn [sub_loop].
    + rewrite !match_at_repeated.
      rewrite (run_length_boundary a c pre rest Hlast).
      destruct (sym_eqb a newline).
      * rewrite (IH' 0) by lia. reflexivity.
      * destruct (3 <=? run_length a pre).
        -- rewrite (IH' _ (run_length_le a pre)).
           rewrite <- app_assoc. reflexivity.
        -- rewrite (IH' 0) by lia. reflexivity.
    + simpl in Hk. rewrite (IH' k) by lia. reflexivity.
Qed.

(** A run of four or more copies of a character other than the newline,
    with another character or none on each side, is replaced once, and the
    text on each side is rewritten as it is alone. *)
Lemma sub_repeated_run (repl : list A) (c : A) (n : nat) (pre post : list A) :
  c <> newline ->
  4 <= n ->
  last pre <> Some c ->
  head post <> Some c ->
  sub (Seq (Group 1 Dot) (AtLeast 3 (Backref 1))) repl
      (pre ++ replicate n c ++ post)
  = sub (Seq (Group 1 Dot) (AtLeast 3 (Backref 1))) repl pre
    ++ repl
    ++ sub (Seq (Group 1 Dot) (AtLeast 3 (Backref 1))) repl post.
Proof.
  intros Hnl Hn Hlast Hhead. unfold sub.
  destruct n as [|n]; [lia|]. cbn [replicate app].
  rewrite sub_loop_repeated_boundary by (try apply Nat.le_0_l; exact Hlast).
  f_equal. cbn [sub_loop]. rewrite match_at_repeated.
  rewrite (sym_eqb_neq _ _ Hnl), (run_length_replicate c n post Hhead).
  replace (3 <=? n) with true by (symmetry; apply Nat.leb_le; lia).
  f_equal.
  rewrite sub_loop_skip by (rewrite length_app, length_replicate; lia).
  rewrite <- (length_replicate n c) at 2. rewrite drop_app_length.
  apply sub_loop_shift. intros adv pos s. apply match_at_repeated_shift.
Qed.

End MatcherFacts.

(** ** The patterns of [floss/utils.py] *)

(** No pattern of the module matches the empty text: a match of the
    repeated-byte pattern takes one byte or more, of the stack pattern
    nine, of a prefix two and of a suffix three; so [re.sub] never meets an
    empty match with them. *)
Lemma patterns_never_match_empty (adv : bool) (pos n : nat) :
  (forall s, match_at FP_FILTER_REP_BYTES adv pos s = Some n -> (1 <= n)%nat)
  /\ (forall s, match_at FP_STACK_FILTER_1 adv pos s = Some n -> (9 <= n)%nat)
  /\ (forall s, match_at FP_FILTER_PREFIXES adv pos s = Some n -> (2 <= n)%nat)
  /\ (forall s, match_at FP_FILTER_SUFFIXES adv pos s = Some n -> (3 <= n)%nat).
Proof.
  repeat split; intros s Hm; apply match_at_min_len in Hm as [Hm _];
    exact Hm.
Qed.

Lemma patterns_never_match_empty_witness :
  match_at FP_FILTER_PREFIXES false 0 (pystr "0VAhello") = Some 3%nat
  /\ (2 <= 3)%nat.
Proof.
  split; [reflexivity|].
  apply (proj1 (proj2 (proj2 (patterns_never_match_empty false 0 3)))
           (pystr "0VAhello")).
  reflexivity.
Defined.

(** [strip_string] is the prefix substitution followed by the suffix
    substitution, each run once. *)
Lemma strip_string_single_pass (s : str) :
  strip_string s = sub FP_FILTER_SUFFIXES [] (sub FP_FILTER_PREFIXES [] s).
Proof. reflexivity. Qed.

(** The result can still hold an affix: "@A@AAAx" gives "@AAx", which
    [strip_string] would strip to "x". *)
Lemma strip_string_not_a_fixed_point :
  strip_string (pystr "@A@AAAx") = pystr "@AAx"
  /\ strip_string (pystr "@AAx") = pystr "x".
Proof. split; vm_compute; reflexivity. Qed.

(** A text in which neither pattern matches anywhere is returned as it
    is. *)
Lemma strip_string_unchanged (s : str) :
  search FP_FILTER_PREFIXES s = None ->
  search FP_FILTER_SUFFIXES s = None ->
  strip_string s = s.
Proof.
  intros Hp Hs. rewrite strip_string_single_pass.
  rewrite (sub_no_match _ _ _ Hp). apply sub_no_match. exact Hs.
Qed.

Lemma strip_string_unchanged_witness :
  search FP_FILTER_PREFIXES (pystr "hello world") = None
  /\ search FP_FILTER_SUFFIXES (pystr "hello world") = None
  /\ strip_string (pystr "hello world") = pystr "hello world".
Proof.
  split; [reflexivity|]. split; [reflexivity|].
  apply strip_string_unchanged; reflexivity.
Defined.

(** Enabled, the first substitution of [strip_bytes] replaces a run of four
    or more copies of a byte other than the newline, with another byte or
    none on each side, by two null bytes, and rewrites the bytes on each
    side as it does alone. *)
Lemma rep_bytes_collapses_run (c : byte) (n : nat) (pre post : bytes) :
  c <> x0a ->
  (4 <= n)%nat ->
  last pre <> Some c ->
  head post <> Some c ->
  sub FP_FILTER_REP_BYTES [x00; x00] (pre ++ replicate n c ++ post)
  = sub FP_FILTER_REP_BYTES [x00; x00] pre
    ++ [x00; x00]
    ++ sub FP_FILTER_REP_BYTES [x00; x00] post.
Proof.
  intros Hnl Hn Hlast Hhead.
  exact (sub_repeated_run [x00; x00] c n pre post Hnl Hn Hlast Hhead).
Qed.

Lemma rep_bytes_collapses_run_witness :
  bch "A" <> x0a
  /\ (4 <= 5)%nat
  /\ sub FP_FILTER_REP_BYTES [x00; x00]
       (pybytes "xy" ++ replicate 5 (bch "A") ++ pybytes "zt")
     = sub FP_FILTER_REP_BYTES [x00; x00] (pybytes "xy")
       ++ [x00; x00]
       ++ sub FP_FILTER_REP_BYTES [x00; x00] (pybytes "zt").
Proof.
  split; [discriminate|]. split; [lia|].
  apply rep_bytes_collapses_run; [discriminate|lia|discriminate|discriminate].
Defined.

(** A run of newline bytes, however long, is left as it is by the
    repeated-byte substitution. *)
Lemma rep_bytes_keeps_newlines (n : nat) :
  sub FP_FILTER_REP_BYTES [x00; x00] (replicate n x0a) = replicate n x0a.
Proof.
  apply sub_no_match. unfold search. generalize 0%nat as pos.
  induction n as [|n IH]; intros pos; cbn [replicate search_from].
  - reflexivity.
  - unfold FP_FILTER_REP_BYTES at 1. rewrite match_at_repeated.
    cbn. apply IH.
Qed.

(** ** What a substitution keeps *)

Section SubFacts.
Context {A : Type} `{Symbol A}.
Local Open Scope nat_scope.

(** With a replacement no longer than any match, [re.sub] never makes a
    text longer. *)
Lemma sub_loop_length (r : regex A) (repl : list A) :
  (forall adv pos s n, match_at r adv pos s = Some n -> length repl <= n) ->
  forall s k pos,
    k <= length s ->
    length (sub_loop r repl k pos s) + k <= length s.
Proof.
  intros Hrepl.
  assert (Hm : forall adv pos s n,
    match_at r adv pos s = Some n -> length repl <= n <= length s).
  { intros adv pos s n E. split; [exact (Hrepl _ _ _ _ E)|].
    apply match_at_min_len in E. lia. }
  clear Hrepl.
  induction s as [|c s IH]; intros k pos Hk.
  - simpl in Hk. replace k with 0 by lia. cbn [sub_loop].
    destruct (match_at r false pos []) as [[|n]|] eqn:E.
    + apply Hm in E.
      destruct (match_at r true pos []) as [[|n]|] eqn:E';
        try (rewrite length_app; simpl; lia).
      apply Hm in E'. simpl in E'. lia.
    + apply Hm in E. simpl in E. lia.
    + simpl. lia.
  - destruct k as [|k]; cbn [sub_loop].
    + pose proof (IH 0 (S pos) ltac:(lia)) as IH0.
      destruct (match_at r false pos (c :: s)) as [[|n]|] eqn:E.
      * apply Hm in E.
        destruct (match_at r true pos (c :: s)) as [[|n]|] eqn:E';
          rewrite ?length_app; simpl; try lia.
        apply Hm in E'. simpl in E'.
        pose proof (IH n (S pos) ltac:(lia)). rewrite ?length_app. lia.
      * apply Hm in E. simpl in E.
        pose proof (IH n (S pos) ltac:(lia)). rewrite length_app. simpl. lia.
      * simpl. lia.
    + simpl in Hk. pose proof (IH k (S pos) ltac:(lia)). simpl. lia.
Qed.

Lemma sub_length (r : regex A) (repl s : list A) :
  (forall adv pos s n, match_at r adv pos s = Some n -> length repl <= n) ->
  length (sub r repl s) <= length s.
Proof.
  intros Hrepl. unfold sub.
  pose proof (sub_loop_length r repl Hrepl s 0 0 ltac:(lia)). lia.
Qed.

(** Replacing by the empty text only removes characters: what is left is
    a subsequence of the text. *)
Lemma sub_loop_empty_sublist (r : regex A) :
  forall s k pos, sub_loop r [] k pos s `sublist_of` s.
Proof.
  induction s as [|c s IH]; intros k pos.
  - destruct k; cbn [sub_loop]; [|constructor].
    destruct (match_at r false pos []) as [[|n]|];
      [destruct (match_at r true pos []) as [[|n]|]| |]; constructor.
  - destruct k as [|k]; cbn [sub_loop].
    + destruct (match_at r false pos (c :: s)) as [[|n]|];
        [destruct (match_at r true pos (c :: s)) as [[|n]|]| |];
        cbn [app];
        first [ apply sublist_skip; apply IH | apply sublist_cons; apply IH ].
    + apply sublist_cons. apply IH.
Qed.

Lemma sub_empty_sublist (r : regex A) (s : list A) :
  sub r [] s `sublist_of` s.
Proof. apply sub_loop_empty_sublist. Qed.

End SubFacts.

Lemma strip_string_keeps_subsequence (s : str) :
  strip_string s `sublist_of` s.
Proof.
  rewrite strip_string_single_pass.
  etransitivity; apply sub_empty_sublist.
Qed.

(** [strip_string] only removes characters: its result is a subsequence of
    the text, in particular no longer than the text. *)
Theorem strip_string_sublist (s : str) :
  strip_string s `sublist_of` s /\ len (strip_string s) <= len s.
Proof.
  pose proof (strip_string_keeps_subsequence s) as Hsub.
  split; [exact Hsub|].
  apply sublist_length in Hsub. unfold len. lia.
Qed.

(** A match of the repeated-byte pattern takes four bytes or more. *)
Lemma match_at_rep_bytes_length adv pos (s : bytes) n :
  match_at FP_FILTER_REP_BYTES adv pos s = Some n -> (4 <= n)%nat.
Proof.
  unfold FP_FILTER_REP_BYTES. rewrite match_at_repeated.
  destruct s as [|c s]; [discriminate|].
  destruct (sym_eqb c newline); [discriminate|].
  destruct (3 <=? run_length c s)%nat eqn:E; [|discriminate].
  intros [= <-]. apply Nat.leb_le in E. lia.
Qed.

(** [strip_bytes] never makes a buffer longer, enabled or not: each match
    of either pattern takes four bytes or more and is replaced by two. *)
Theorem strip_bytes_never_longer (b : bytes) (enabled : bool) :
  len (strip_bytes b enabled) <= len b.
Proof.
  unfold strip_bytes, len. destruct enabled; simpl negb; cbv iota; [|lia].
  pose proof (sub_length FP_FILTER_REP_BYTES [x00; x00] b) as H1.
  pose proof (sub_length FP_STACK_FILTER_1 [x00; x00]
                (sub FP_FILTER_REP_BYTES [x00; x00] b)) as H2.
  assert (length (sub FP_FILTER_REP_BYTES [x00; x00] b) <= length b)%nat.
  { apply H1. intros adv pos s n E.
    apply match_at_rep_bytes_length in E. simpl. lia. }
  assert (length (sub FP_STACK_FILTER_1 [x00; x00]
                    (sub FP_FILTER_REP_BYTES [x00; x00] b))
          <= length (sub FP_FILTER_REP_BYTES [x00; x00] b))%nat.
  { apply H2. intros adv pos s n E.
    apply match_at_min_len in E as [E _]. simpl. vm_compute in E. lia. }
  lia.
Qed.

(** ** More on [extract_strings] *)

Lemma filter_sublist_impl {B} (P Q : B -> Prop)
    `{!forall x, Decision (P x)} `{!forall x, Decision (Q x)} (l : list B) :
  (forall x, P x -> Q x) -> filter P l `sublist_of` filter Q l.
Proof.
  intros HPQ. induction l as [|x l IH]; [constructor|].
  rewrite !filter_cons.
  destruct (decide (P x)) as [HP|HP].
  - rewrite decide_True by auto. apply sublist_skip, IH.
  - destruct (decide (Q x)); [apply sublist_cons, IH|exact IH].
Qed.

Section PipelineFacts.

Variable MAX_STRING_LENGTH : Z.
Variable extract_ascii_unicode_strings : bytes -> list StaticString.

Local Abbreviation loop_body := (loop_body MAX_STRING_LENGTH).
Local Abbreviation survives := (survives MAX_STRING_LENGTH).
Local Abbreviation extract_strings :=
  (extract_strings MAX_STRING_LENGTH extract_ascii_unicode_strings).

(** Every string yielded is at most [MAX_STRING_LENGTH] characters long,
    and its text is a subsequence of the text of a candidate of the run
    extractor that is itself within the ceiling; no more strings are
    yielded than there are candidates. *)
Theorem yielded_within_ceiling (b : bytes) (L : Z) (X : option (gset str)) :
  (forall y, y ∈ yielded (extract_strings b L X) ->
     len (string_ y) <= MAX_STRING_LENGTH
     /\ exists c, c ∈ extract_ascii_unicode_strings b
          /\ len (string_ c) <= MAX_STRING_LENGTH
          /\ string_ y `sublist_of` string_ c)
  /\ (length (yielded (extract_strings b L X))
      <= length (extract_ascii_unicode_strings b))%nat.
Proof.
  rewrite extract_strings_yielded. split.
  - intros y. destruct (len b <? L); [intros Hin; inversion Hin|].
    intros Hin. apply list_elem_of_fmap in Hin as (c & -> & Hc).
    apply list_elem_of_filter in Hc as [Hs Hc].
    unfold survives in Hs.
    apply andb_prop in Hs as [Hs _]. apply andb_prop in Hs as [Hs _].
    apply andb_prop in Hs as [Hs _].
    apply negb_true_iff, Z.ltb_ge in Hs.
    pose proof (strip_string_keeps_subsequence (string_ c)) as Hsub.
    pose proof (sublist_length _ _ Hsub) as Hlen. unfold len in *.
    simpl. split; [lia|]. exists c. repeat split; assumption.
  - destruct (len b <? L); [simpl; lia|].
    rewrite length_fmap. apply length_filter.
Qed.

(** Raising [min_length] only removes strings from the output. *)
Theorem min_length_monotone (b : bytes) (L L' : Z) (X : option (gset str)) :
  L <= L' ->
  yielded (extract_strings b L' X) `sublist_of` yielded (extract_strings b L X).
Proof.
  intros HL. rewrite !extract_strings_yielded.
  destruct (len b <? L') eqn:E'; [apply sublist_nil_l|].
  apply Z.ltb_ge in E'.
  replace (len b <? L) with false by (symmetry; apply Z.ltb_ge; lia).
  apply fmap_sublist, filter_sublist_impl.
  intros c Hs. unfold survives in *.
  apply andb_prop in Hs as [Hs Hx]. apply andb_prop in Hs as [Hs Hlen].
  rewrite Hs, Hx. simpl. rewrite andb_true_r.
  apply negb_true_iff, Z.ltb_ge in Hlen.
  apply negb_true_iff, Z.ltb_ge. lia.
Qed.

(** A larger exclusion set only removes strings from the output, and any
    exclusion set only removes strings from the output without one. *)
Theorem exclusion_set_monotone (b : bytes) (L : Z) (X X' : gset str) :
  X ⊆ X' ->
  yielded (extract_strings b L (Some X'))
    `sublist_of` yielded (extract_strings b L (Some X))
  /\ yielded (extract_strings b L (Some X))
    `sublist_of` yielded (extract_strings b L None).
Proof.
  intros HX. rewrite !extract_strings_yielded.
  destruct (len b <? L); [split; constructor|].
  split; apply fmap_sublist, filter_sublist_impl; intros c;
    rewrite !survives_Some; intros Hs;
    apply andb_prop in Hs as [Hs Hx]; [|exact Hs].
  rewrite Hs. simpl. apply bool_decide_eq_true_1 in Hx.
  apply bool_decide_eq_true_2. set_solver.
Qed.

(** An empty exclusion set is as good as none: the call logs and yields
    the same. *)
Theorem empty_exclusion_set_is_none (b : bytes) (L : Z) :
  extract_strings b L (Some ∅) = extract_strings b L None.
Proof.
  unfold extract_strings.
  destruct (len b <? L); [reflexivity|]. do 2 f_equal.
Qed.


End PipelineFacts.

(** ** [remove_stack_memory] *)

Section RemoveStackMemory.
Context {T : Type}.
Implicit Types (emu : Emulator T) (snap : list memory_map).
Local Open Scope nat_scope.

(** The loop over the indices below [n]: it fails when none of these maps
    is named [STACK_MEM_NAME], and otherwise deletes the one of them with
    the largest index. *)
Lemma remove_stack_memory_loop_spec emu snap n :
  n <= length snap ->
  match remove_stack_memory_loop emu snap n with
  | inl e =>
      e = ValueError (pystr "`STACK_MEM_NAME` not in memory map")
      /\ forall i mm, i < n -> snap !! i = Some mm ->
           map_name mm <> STACK_MEM_NAME
  | inr emu' =>
      exists i mm,
        i < n /\ snap !! i = Some mm /\ map_name mm = STACK_MEM_NAME
        /\ (forall j mm', i < j < n -> snap !! j = Some mm' ->
              map_name mm' <> STACK_MEM_NAME)
        /\ emu' = mkEmulator (delete i snap) None (other emu)
  end.
Proof.
  induction n as [|n IH]; intros Hn; cbn [remove_stack_memory_loop].
  - split; [reflexivity|]. intros i mm Hi. lia.
  - destruct (snap !! n) as [mm|] eqn:Hmm.
    + destruct (bool_decide (map_name mm = STACK_MEM_NAME)) eqn:Hname.
      * apply bool_decide_eq_true in Hname.
        exists n, mm. repeat split; try assumption; try lia.
      * apply bool_decide_eq_false in Hname.
        specialize (IH ltac:(lia)).
        destruct (remove_stack_memory_loop emu snap n) as [e|emu'].
        -- destruct IH as [-> IH]. split; [reflexivity|].
           intros i mm' Hi Hl. destruct (decide (i = n)) as [->|Hne].
           ++ congruence.
           ++ apply (IH i); [lia|exact Hl].
        -- destruct IH as (i & mm0 & Hi & Hl & Hn0 & Hafter & ->).
           exists i, mm0. repeat split; try assumption; try lia.
           intros j mm' Hj Hl'. destruct (decide (j = n)) as [->|Hne].
           ++ congruence.
           ++ apply (Hafter j); [lia|exact Hl'].
    + apply lookup_ge_None in Hmm. lia.
Qed.

(** [remove_stack_memory] raises [ValueError] exactly when no map of the
    snapshot is named [STACK_MEM_NAME]; it raises nothing else. *)
Theorem remove_stack_memory_raises emu :
  (forall e, remove_stack_memory emu = inl e ->
     e = ValueError (pystr "`STACK_MEM_NAME` not in memory map"))
  /\ ((exists e, remove_stack_memory emu = inl e)
      <-> forall mm, mm ∈ memory_snap emu -> map_name mm <> STACK_MEM_NAME).
Proof.
  unfold remove_stack_memory.
  pose proof (remove_stack_memory_loop_spec emu (memory_snap emu)
                (length (memory_snap emu)) (Nat.le_refl _)) as Hspec.
  destruct (remove_stack_memory_loop emu (memory_snap emu)
              (length (memory_snap emu))) as [e|emu'].
  - destruct Hspec as [-> Hnone]. split; [intros e [= <-]; reflexivity|].
    split; [|eauto]. intros _ mm Hin.
    apply list_elem_of_lookup in Hin as [i Hi].
    apply (Hnone i); [|exact Hi]. apply lookup_lt_Some in Hi. exact Hi.
  - destruct Hspec as (i & mm & Hi & Hl & Hname & _).
    split; [intros e [=]|]. split; [intros [e [=]]|].
    intros Hnone. exfalso. apply (Hnone mm); [|exact Hname].
    apply list_elem_of_lookup. eauto.
Qed.

(** When it returns, [remove_stack_memory] has deleted the last map named
    [STACK_MEM_NAME] and no other: the maps before it and after it are kept
    in their order, [stack_map_base] is reset and the rest of the emulator
    is untouched. *)
Theorem remove_stack_memory_removes_last emu emu' :
  remove_stack_memory emu = inr emu' <->
  exists before mm after,
    memory_snap emu = before ++ mm :: after
    /\ map_name mm = STACK_MEM_NAME
    /\ (forall mm', mm' ∈ after -> map_name mm' <> STACK_MEM_NAME)
    /\ emu' = mkEmulator (before ++ after) None (other emu).
Proof.
  unfold remove_stack_memory.
  pose proof (remove_stack_memory_loop_spec emu (memory_snap emu)
                (length (memory_snap emu)) (Nat.le_refl _)) as Hspec.
  destruct (remove_stack_memory_loop emu (memory_snap emu)
              (length (memory_snap emu))) as [e|emu''].
  - destruct Hspec as [_ Hnone]. split; [intros [=]|].
    intros (before & mm & after & Hsnap & Hname & _). exfalso.
    apply (Hnone (length before) mm); [| |exact Hname].
    + rewrite Hsnap, length_app. simpl. lia.
    + rewrite Hsnap. apply list_lookup_middle. reflexivity.
  - destruct Hspec as (i & mm & Hi & Hl & Hname & Hafter & ->).
    assert (Hsplit : memory_snap emu
                     = take i (memory_snap emu) ++ mm :: drop (S i) (memory_snap emu)).
    { symmetry. apply take_drop_middle. exact Hl. }
    assert (Hlast : forall mm', mm' ∈ drop (S i) (memory_snap emu) ->
                                map_name mm' <> STACK_MEM_NAME).
    { intros mm' Hin. apply list_elem_of_lookup in Hin as [j Hj].
      rewrite lookup_drop in Hj. apply (Hafter (S i + j)); [|exact Hj].
      apply lookup_lt_Some in Hj. lia. }
    split.
    + intros [= <-].
      exists (take i (memory_snap emu)), mm, (drop (S i) (memory_snap emu)).
      repeat split; try assumption.
      rewrite delete_take_drop. reflexivity.
    + intros (before & mm' & after & Hsnap & Hname' & Hafter' & ->).
      f_equal. f_equal.
      assert (Hib : i = length before).
      { destruct (Nat.lt_trichotomy i (length before)) as [Hlt|[Heq|Hgt]];
          [exfalso|exact Heq|exfalso].
        - apply (Hafter (length before) mm'); [| |exact Hname'].
          + rewrite Hsnap, length_app. simpl. lia.
          + rewrite Hsnap. apply list_lookup_middle. reflexivity.
        - apply (Hafter' mm); [|exact Hname].
          apply list_elem_of_lookup. exists (i - S (length before)).
          rewrite Hsnap in Hl.
          rewrite lookup_app_r in Hl by lia.
          replace (i - length before) with (S (i - S (length before))) in Hl
            by lia.
          exact Hl. }
      rewrite delete_take_drop, Hib, Hsnap.
      rewrite take_app_length, drop_app_ge by lia.
      replace (S (length before) - length before) with 1 by lia.
      reflexivity.
Qed.

End RemoveStackMemory.

(** ** [hex] *)

Lemma read_upper_hex_digits (d : Hexadecimal.uint) :
  read_hex_digits (upper_hex_digits d) = Some d.
Proof.
  induction d; cbn [upper_hex_digits read_hex_digits]; [reflexivity|..];
    rewrite IHd; reflexivity.
Qed.

(** The digits of a number are not empty and do not start with the minus
    sign. *)
Lemma upper_hex_digits_head (d : Hexadecimal.uint) :
  d <> Hexadecimal.Nil ->
  exists c digits,
    upper_hex_digits d = c :: digits /\ (c =? ch "-")%N = false.
Proof.
  destruct d; [congruence|..]; intros _; cbn [upper_hex_digits];
    eexists _, _; (split; [reflexivity|reflexivity]).
Qed.

Lemma to_hex_int_nonnil (i : Z) :
  match Z.to_hex_int i with
  | Hexadecimal.Pos d | Hexadecimal.Neg d => d <> Hexadecimal.Nil
  end.
Proof.
  destruct i as [|p|p]; cbn; [discriminate|..];
    apply HexadecimalPos.Unsigned.to_uint_nonnil.
Qed.

(** [hex] loses nothing: the digits after "0x", read in base 16 with the
    minus sign that may precede them, give the integer back; so different
    integers have different renderings. *)
Theorem hex_round_trip (i : Z) :
  unhex (hex i) = Some i /\ forall j, hex i = hex j -> i = j.
Proof.
  assert (Hrt : forall k, unhex (hex k) = Some k).
  { intros k. unfold hex, format_X.
    pose proof (to_hex_int_nonnil k) as Hnn.
    pose proof (HexadecimalZ.of_to k) as Hof.
    destruct (Z.to_hex_int k) as [d|d].
    - apply upper_hex_digits_head in Hnn as (c & digits & Hd & Hc).
      cbn [pystr unhex app fmap list_fmap list_ascii_of_string].
      change (N_of_ascii "0" =? ch "0")%N with true.
      change (N_of_ascii "x" =? ch "x")%N with true.
      cbn [andb]. rewrite Hd, Hc, <- Hd, read_upper_hex_digits.
      change (Some (Z.of_hex_int (Hexadecimal.Pos d)) = Some k).
      rewrite Hof. reflexivity.
    - cbn [pystr unhex app fmap list_fmap list_ascii_of_string].
      change (N_of_ascii "0" =? ch "0")%N with true.
      change (N_of_ascii "x" =? ch "x")%N with true.
      cbn [andb]. change (ch "-" =? ch "-")%N with true. cbv iota.
      rewrite read_upper_hex_digits.
      change (Some (Z.of_hex_int (Hexadecimal.Neg d)) = Some k).
      rewrite Hof. reflexivity. }
  split; [apply Hrt|].
  intros j Heq. pose proof (Hrt i) as Hi. rewrite Heq, Hrt in Hi.
  congruence.
Qed.

(** A negative integer is rendered with the minus sign after the "0x":
    [hex(-i)] is "0x-" followed by the digits of [i]. *)
Theorem hex_negative (i : Z) :
  0 < i -> hex (- i) = pystr "0x-" ++ drop 2 (hex i).
Proof.
  intros Hi. destruct i as [|p|p]; [lia| |lia]. reflexivity.
Qed.

Lemma hex_negative_witness :
  0 < 26 /\ hex (- 26) = pystr "0x-" ++ drop 2 (hex 26).
Proof. split; [reflexivity|]. exact (hex_negative 26 eq_refl). Defined.

(** ** [is_all_zeros] *)

(** [is_all_zeros] holds of the buffers that are null bytes throughout,
    the empty buffer among them, and of a concatenation when it holds of
    both parts. *)
Theorem is_all_zeros_spec (b b' : bytes) :
  (is_all_zeros b = true <-> b = replicate (length b) x00)
  /\ is_all_zeros [] = true
  /\ is_all_zeros (b ++ b') = is_all_zeros b && is_all_zeros b'.
Proof.
  split; [|split; [reflexivity|apply forallb_app]].
  unfold is_all_zeros. induction b as [|c b IH]; simpl.
  - split; reflexivity.
  - rewrite andb_true_iff, IH. split.
    + intros [Hc Hb]. apply Byte.byte_dec_bl in Hc. subst c.
      rewrite <- Hb. reflexivity.
    + intros [= -> Hb]. split; [reflexivity|exact Hb].
Qed.

(** ** What the pipeline does not ensure *)

(** [strip_string] is not idempotent: stripping "@A@AAAx" leaves "@AAx",
    from which a second call takes "@AA" off. *)
Theorem strip_string_not_idempotent :
  ~ (forall s, strip_string (strip_string s) = strip_string s).
Proof.
  intros Hidem. specialize (Hidem (pystr "@A@AAAx")).
  vm_compute in Hidem. discriminate Hidem.
Qed.

(** The denylist is checked before the affixes are stripped, so a string
    of the denylist can be yielded: the candidate "VARuntime Error!" is
    yielded as "Runtime Error!". *)
Theorem yielded_may_be_denylisted :
  ~ (forall MAX_STRING_LENGTH extract b L X y,
       y ∈ yielded (extract_strings MAX_STRING_LENGTH extract b L X) ->
       string_ y ∉ FP_STRINGS).
Proof.
  intros Hnever.
  apply (Hnever sample_ceiling Strings.extract_ascii_unicode_strings
           (pybytes "VARuntime Error!") 4 None
           (mkStaticString (pystr "Runtime Error!") 0 ASCII)).
  - apply (bool_decide_unpack _). vm_compute. exact I.
  - exact runtime_error_in_FP_STRINGS.
Qed.

(** ** Buffers the pre-filter leaves alone *)

Section SuffixFacts.
Context {A : Type} `{Symbol A}.
Local Open Scope nat_scope.

Lemma is_prefix_take_drop (t s : list A) :
  is_prefix t s = true -> s = take (length t) s ++ drop (length t) s.
Proof. intros _. symmetry. apply take_drop. Qed.

(** Where a match succeeds, the continuation succeeded on a suffix of the
    text. *)
Lemma m_suffix {R : Type} (r : regex A) :
  forall pos s caps (k : @cont A R) x,
    m r pos s caps k = Some x ->
    exists pos' s' caps' t,
      k pos' s' caps' = Some x /\ s = t ++ s'.
Proof.
  induction r as [|a| |l| | |r1 IH1 r2 IH2|r1 IH1 r2 IH2|r IH|i r IH|i];
    intros pos s caps k x Hm; cbn [m] in Hm.
  - exists pos, s, caps, []. split; [exact Hm|reflexivity].
  - destruct s as [|c s]; [discriminate|].
    destruct (sym_eqb c a); [|discriminate].
    exists (S pos), s, caps, [c]. split; [exact Hm|reflexivity].
  - destruct s as [|c s]; [discriminate|].
    destruct (sym_eqb c newline); [discriminate|].
    exists (S pos), s, caps, [c]. split; [exact Hm|reflexivity].
  - destruct s as [|c s]; [discriminate|].
    destruct (existsb (sym_eqb c) l); [|discriminate].
    exists (S pos), s, caps, [c]. split; [exact Hm|reflexivity].
  - destruct (pos =? 0); [|discriminate].
    exists pos, s, caps, []. split; [exact Hm|reflexivity].
  - exists pos, s, caps, [].
    destruct s as [|c [|d s]]; [|destruct (sym_eqb c newline)|];
      try discriminate; split; try exact Hm; reflexivity.
  - apply IH1 in Hm as (p1 & s1 & c1 & t1 & Hm & ->).
    apply IH2 in Hm as (p2 & s2 & c2 & t2 & Hm & ->).
    exists p2, s2, c2, (t1 ++ t2). split; [exact Hm|].
    rewrite app_assoc. reflexivity.
  - destruct (m r1 pos s caps k) eqn:E1.
    + injection Hm as ->. apply IH1 in E1. exact E1.
    + apply IH2 in Hm. exact Hm.
  - revert Hm. generalize (length s) at 1 as fuel. intros fuel.
    revert pos s caps.
    induction fuel as [|fuel IHf]; intros pos s caps Hm.
    + exists pos, s, caps, []. split; [exact Hm|reflexivity].
    + match type of Hm with
      | match ?e with _ => _ end = _ => destruct e eqn:E
      end.
      * injection Hm as ->.
        apply IH in E as (p1 & s1 & c1 & t1 & Hk & ->).
        destruct (length s1 <? length (t1 ++ s1)); [|discriminate].
        apply IHf in Hk as (p2 & s2 & c2 & t2 & Hk & ->).
        exists p2, s2, c2, (t1 ++ t2). split; [exact Hk|].
        rewrite app_assoc. reflexivity.
      * exists pos, s, caps, []. split; [exact Hm|reflexivity].
  - apply IH in Hm as (p1 & s1 & c1 & t1 & Hk & ->).
    eexists p1, s1, _, t1. split; [exact Hk|reflexivity].
  - destruct (caps !! i) as [t|]; [|discriminate].
    destruct (is_prefix t s) eqn:Ep; [|discriminate].
    exists (pos + length t), (drop (length t) s), caps, (take (length t) s).
    split; [exact Hm|]. apply is_prefix_take_drop. exact Ep.
Qed.

(** A run of three or more at the start of a text. *)
Lemma run_length_replicate_inv (c : A) (s : list A) (n : nat) :
  n <= run_length c s -> exists rest, s = replicate n c ++ rest.
Proof.
  revert s. induction n as [|n IH]; intros s Hn.
  - exists s. reflexivity.
  - destruct s as [|d s]; simpl in Hn; [lia|].
    destruct (sym_eqb d c) eqn:E; [|lia].
    apply sym_eqb_eq in E. subst d.
    destruct (IH s ltac:(lia)) as [rest ->]. exists rest. reflexivity.
Qed.

Lemma m_Seq_suffix {R : Type} (r1 r2 : regex A) pos s caps (k : @cont A R) x :
  m (Seq r1 r2) pos s caps k = Some x ->
  exists pos' s' caps' t, m r2 pos' s' caps' k = Some x /\ s = t ++ s'.
Proof. rewrite m_Seq. intros Hm. exact (m_suffix r1 _ _ _ _ _ Hm). Qed.

Lemma m_Lit_inv {R : Type} (a : A) pos s caps (k : @cont A R) x :
  m (Lit a) pos s caps k = Some x ->
  exists s', s = a :: s' /\ k (S pos) s' caps = Some x.
Proof.
  cbn [m]. destruct s as [|c s]; [discriminate|].
  destruct (sym_eqb c a) eqn:E; [|discriminate].
  apply sym_eqb_eq in E. subst c. eauto.
Qed.

Lemma m_Seq_Lit_inv {R : Type} (a : A) (r : regex A) pos s caps
    (k : @cont A R) x :
  m (Seq (Lit a) r) pos s caps k = Some x ->
  exists s', s = a :: s' /\ m r (S pos) s' caps k = Some x.
Proof. rewrite m_Seq. apply m_Lit_inv. Qed.

End SuffixFacts.

(** A match of the stack pattern holds four null bytes in a row. *)
Lemma match_at_stack_filter_nulls adv pos (s : bytes) n :
  match_at FP_STACK_FILTER_1 adv pos s = Some n ->
  exists before after, s = before ++ replicate 4 x00 ++ after.
Proof.
  unfold match_at, FP_STACK_FILTER_1. cbn [Seqs]. intros Hm.
  apply m_Seq_suffix in Hm as (p1 & s1 & c1 & t1 & Hm & ->).
  apply m_Seq_suffix in Hm as (p2 & s2 & c2 & t2 & Hm & ->).
  apply m_Seq_suffix in Hm as (p3 & s3 & c3 & t3 & Hm & ->).
  apply m_Seq_suffix in Hm as (p4 & s4 & c4 & t4 & Hm & ->).
  apply m_Seq_suffix in Hm as (p5 & s5 & c5 & t5 & Hm & ->).
  apply m_Seq_suffix in Hm as (p6 & s6 & c6 & t6 & Hm & ->).
  apply m_Seq_Lit_inv in Hm as (s7 & -> & Hm).
  apply m_Seq_Lit_inv in Hm as (s8 & -> & Hm).
  apply m_Seq_Lit_inv in Hm as (s9 & -> & Hm).
  apply m_Lit_inv in Hm as (s10 & -> & Hm).
  exists (t1 ++ t2 ++ t3 ++ t4 ++ t5 ++ t6), s10.
  rewrite <- !app_assoc. reflexivity.
Qed.

(** A match of the repeated-byte pattern starts with four equal bytes. *)
Lemma match_at_rep_bytes_run adv pos (s : bytes) n :
  match_at FP_FILTER_REP_BYTES adv pos s = Some n ->
  exists c after, s = replicate 4 c ++ after.
Proof.
  unfold FP_FILTER_REP_BYTES. rewrite match_at_repeated.
  destruct s as [|c s]; [discriminate|].
  destruct (sym_eqb c newline); [discriminate|].
  destruct (3 <=? run_length c s)%nat eqn:E; [|discriminate].
  intros _. apply Nat.leb_le in E.
  apply run_length_replicate_inv in E as [rest ->].
  exists c, rest. reflexivity.
Qed.

(** A pattern that matches at no index of a text is not found in it. *)
Lemma search_from_None {A} `{Symbol A} (r : regex A) (pos : nat) (s : list A) :
  (forall i, (i <= length s)%nat ->
     match_at r false (pos + i) (drop i s) = None) ->
  search_from r pos s = None.
Proof.
  revert pos. induction s as [|c s IH]; intros pos Hno.
  - cbn [search_from]. specialize (Hno 0%nat (Nat.le_0_l _)).
    rewrite Nat.add_0_r, drop_0 in Hno. rewrite Hno. reflexivity.
  - cbn [search_from]. pose proof (Hno 0%nat (Nat.le_0_l _)) as H0.
    rewrite Nat.add_0_r, drop_0 in H0. rewrite H0.
    apply IH. intros i Hi. specialize (Hno (S i)).
    replace (pos + S i)%nat with (S pos + i)%nat in Hno by lia.
    apply Hno. simpl. lia.
Qed.

(** A buffer in which no byte is repeated four times in a row is returned
    as it is by [strip_bytes], enabled or not. *)
Theorem strip_bytes_keeps_buffers_without_runs (b : bytes) (enabled : bool) :
  (forall before c after, b <> before ++ replicate 4 c ++ after) ->
  strip_bytes b enabled = b.
Proof.
  intros Hnorun. unfold strip_bytes. destruct enabled; [|reflexivity].
  cbn [negb]. cbv iota.
  assert (Hrep : sub FP_FILTER_REP_BYTES [x00; x00] b = b).
  { apply sub_no_match, search_from_None. intros i Hi.
    destruct (match_at FP_FILTER_REP_BYTES false (0 + i) (drop i b))
      as [n|] eqn:E; [exfalso|reflexivity].
    apply match_at_rep_bytes_run in E as (c & after & Hd).
    apply (Hnorun (take i b) c after).
    rewrite <- Hd. symmetry. apply take_drop. }
  rewrite Hrep.
  apply sub_no_match, search_from_None. intros i Hi.
  destruct (match_at FP_STACK_FILTER_1 false (0 + i) (drop i b))
    as [n|] eqn:E; [exfalso|reflexivity].
  apply match_at_stack_filter_nulls in E as (before & after & Hd).
  apply (Hnorun (take i b ++ before) x00 after).
  rewrite <- app_assoc, <- Hd. symmetry. apply take_drop.
Qed.

Lemma strip_bytes_keeps_buffers_without_runs_witness :
  (forall before c after,
     pybytes "aaabbb" <> before ++ replicate 4 c ++ after)
  /\ strip_bytes (pybytes "aaabbb") true = pybytes "aaabbb".
Proof.
  assert (Hnorun : forall before c after,
            pybytes "aaabbb" <> before ++ replicate 4 c ++ after).
  { intros before c after Heq.
    do 7 (destruct before as [|? before]; [
      cbn in Heq; injection Heq; intros; subst; discriminate|]);
    apply (f_equal length) in Heq; rewrite ?length_app in Heq;
    cbn in Heq; lia. }
  split; [exact Hnorun|].
  apply strip_bytes_keeps_buffers_without_runs. exact Hnorun.
Defined.

(** ** The added properties at concrete inputs *)

Lemma yielded_within_ceiling_witness :
  mkStaticString (pystr "hello") 0 ASCII
    ∈ yielded (extract_strings sample_ceiling
                 Strings.extract_ascii_unicode_strings
                 (pybytes "0VAhello") 4 None)
  /\ len (pystr "hello") <= sample_ceiling.
Proof.
  assert (Hin : mkStaticString (pystr "hello") 0 ASCII
                  ∈ yielded (extract_strings sample_ceiling
                               Strings.extract_ascii_unicode_strings
                               (pybytes "0VAhello") 4 None)).
  { apply (bool_decide_unpack _). vm_compute. exact I. }
  split; [exact Hin|].
  exact (proj1 (proj1 (yielded_within_ceiling sample_ceiling
                         Strings.extract_ascii_unicode_strings
                         (pybytes "0VAhello") 4 None) _ Hin)).
Defined.

Lemma min_length_monotone_witness :
  4 <= 6
  /\ yielded (extract_strings sample_ceiling
                Strings.extract_ascii_unicode_strings
                (pybytes "0VAhello") 6 None)
     `sublist_of`
     yielded (extract_strings sample_ceiling
                Strings.extract_ascii_unicode_strings
                (pybytes "0VAhello") 4 None).
Proof.
  split; [discriminate|]. apply min_length_monotone. discriminate.
Defined.

Lemma exclusion_set_monotone_witness :
  ({[ pystr "hello" ]} : gset str) ⊆ {[ pystr "hello"; pystr "world" ]}
  /\ yielded (extract_strings sample_ceiling
                Strings.extract_ascii_unicode_strings
                (pybytes "0VAhello") 4
                (Some {[ pystr "hello"; pystr "world" ]}))
     `sublist_of`
     yielded (extract_strings sample_ceiling
                Strings.extract_ascii_unicode_strings
                (pybytes "0VAhello") 4 (Some {[ pystr "hello" ]})).
Proof.
  assert (Hsub : ({[ pystr "hello" ]} : gset str)
                   ⊆ {[ pystr "hello"; pystr "world" ]}) by set_solver.
  split; [exact Hsub|].
  exact (proj1 (exclusion_set_monotone sample_ceiling
                  Strings.extract_ascii_unicode_strings
                  (pybytes "0VAhello") 4 _ _ Hsub)).
Defined.

(** A snapshot with two maps named "[stack]": the second goes, the first
    stays. *)
Lemma remove_stack_memory_removes_last_witness :
  remove_stack_memory
    (mkEmulator [(0, 4096, (0, 4096, 6, pystr "[stack]"), []);
                 (4096, 8192, (4096, 4096, 5, pystr "a.exe"), []);
                 (8192, 12288, (8192, 4096, 6, pystr "[stack]"), []);
                 (12288, 16384, (12288, 4096, 4, pystr "b.dll"), [])]
                (Some 8192) tt)
  = inr (mkEmulator [(0, 4096, (0, 4096, 6, pystr "[stack]"), []);
                     (4096, 8192, (4096, 4096, 5, pystr "a.exe"), []);
                     (12288, 16384, (12288, 4096, 4, pystr "b.dll"), [])]
                    None tt).
Proof.
  apply remove_stack_memory_removes_last.
  exists [(0, 4096, (0, 4096, 6, pystr "[stack]"), []);
          (4096, 8192, (4096, 4096, 5, pystr "a.exe"), [])],
         (8192, 12288, (8192, 4096, 6, pystr "[stack]"), []),
         [(12288, 16384, (12288, 4096, 4, pystr "b.dll"), [])].
  repeat split.
  intros mm' Hin. apply list_elem_of_singleton in Hin. subst mm'.
  vm_compute. discriminate.
Defined.

(** A snapshot without a map named "[stack]": [ValueError]. *)
Lemma remove_stack_memory_raises_witness :
  (forall mm,
     mm ∈ [(4096, 8192, (4096, 4096, 5, pystr "a.exe"), []) : memory_map] ->
     map_name mm <> STACK_MEM_NAME)
  /\ exists e,
       remove_stack_memory
         (mkEmulator [(4096, 8192, (4096, 4096, 5, pystr "a.exe"), [])]
                     None tt) = inl e.
Proof.
  assert (Hnone : forall mm,
            mm ∈ [(4096, 8192, (4096, 4096, 5, pystr "a.exe"), [])
                  : memory_map] ->
            map_name mm <> STACK_MEM_NAME).
  { intros mm Hin. apply list_elem_of_singleton in Hin. subst mm.
    vm_compute. discriminate. }
  split; [exact Hnone|].
  exact (proj2 (proj2 (remove_stack_memory_raises
                 (mkEmulator [(4096, 8192, (4096, 4096, 5, pystr "a.exe"), [])]
                             None tt))) Hnone).
Defined.

Lemma hex_round_trip_witness :
  hex 4198400 = pystr "0x401000"
  /\ unhex (pystr "0x401000") = Some 4198400.
Proof.
  split; [reflexivity|].
  exact (proj1 (hex_round_trip 4198400)).
Defined.

Lemma is_all_zeros_spec_witness :
  [x00; x00; x00] = replicate (length [x00; x00; x00]) x00
  /\ is_all_zeros [x00; x00; x00] = true.
Proof.
  split; [reflexivity|].
  exact (proj2 (proj1 (is_all_zeros_spec [x00; x00; x00] [])) eq_refl).
Defined.
